(** * add_flickr_photos_to_album.py: camera matching, paging and album assembly

    A shallow embedding of [src/add_flickr_photos_to_album.py].  The remote
    service behind the [flickrapi] object is an oracle whose replies may
    depend on everything that happened before; every remote call, every
    [time.sleep] and every [print] is appended to a trace, so that the
    number and the order of the calls can be stated. *)

From Stdlib Require Import ZArith NArith List Bool Ascii String Lia.
Import ListNotations.

Open Scope string_scope.
Open Scope Z_scope.
Open Scope list_scope.

(** ** Python [str] operations used by the script

    A [string] is a sequence of code points below 256; on those
    [str.lower] works character by character. *)
Module Str.

(** [c.lower()] for one code point: [A-Z] and the upper-case letters of
    the Latin-1 block (U+00C0..U+00DE without the multiplication sign
    U+00D7) move up by 32, everything else is unchanged. *)
Definition lower_char (c : ascii) : ascii :=
  let n := N_of_ascii c in
  if ((65 <=? n) && (n <=? 90)
      || ((192 <=? n) && (n <=? 222) && negb (n =? 215)))%N
  then ascii_of_N (n + 32)
  else c.

(** [s.lower()] *)
Fixpoint lower (s : string) : string :=
  match s with
  | EmptyString => EmptyString
  | String c s' => String (lower_char c) (lower s')
  end.

(** [s.replace(c, '')] for a one-character [c]: every occurrence goes. *)
Fixpoint remove_char (c : ascii) (s : string) : string :=
  match s with
  | EmptyString => EmptyString
  | String d s' =>
      if Ascii.eqb d c then remove_char c s' else String d (remove_char c s')
  end.

(** [needle in hay]: the substring test of Python's [in] on [str]. *)
Fixpoint str_in (needle hay : string) : bool :=
  String.prefix needle hay
  || match hay with
     | EmptyString => false
     | String _ hay' => str_in needle hay'
     end.

(** Truth value of a [str]: the empty string is falsy. *)
Definition truthy (s : string) : bool :=
  match s with
  | EmptyString => false
  | String _ _ => true
  end.

(** [d.get(key, '')] on a key that may be missing. *)
Definition get_str (o : option string) : string :=
  match o with
  | Some s => s
  | None => EmptyString
  end.

End Str.

(** The chain [.lower().replace(' ', '').replace('-', '').replace('_', '')]
    of line 209, applied there to the camera model and to the machine
    tags alike. *)
Definition normalize (s : string) : string :=
  Str.remove_char "_" (Str.remove_char "-" (Str.remove_char " " (Str.lower s))).

(** ** Data returned by the service *)

(** One entry of [response['photos']['photo']].  Only the two keys the
    script reads are kept; [machine_tags] may be missing or [None]. *)
Record photo : Type := mkPhoto {
  photo_id : string;
  machine_tags : option string
}.

(** The value under an EXIF entry's ['raw'] key: missing, a plain string,
    or a dict whose ['_content'] key may itself be missing. *)
Inductive raw_value : Type :=
| RawMissing
| RawStr (s : string)
| RawDict (content : option string).

(** One entry of [exif['photo']['exif']]. *)
Record exif_tag : Type := mkExifTag {
  label : option string;
  tag : option string;
  raw : raw_value
}.

(** A [getExif] response: [None] when the ['photo'] key is missing,
    [Some None] when ['photo'] has no ['exif'] key. *)
Definition exif_response : Type := option (option (list exif_tag)).

(** A [photos.search] response: [response['photos']['photo']] and
    [int(response['photos']['pages'])]. *)
Record search_response : Type := mkSearch {
  photo_list : list photo;
  pages : Z
}.

(** ** Effects *)

Inductive exn : Type :=
| FlickrError
| OtherError
| SystemExit (code : Z).

(** The texts handed to [print], by line of the source. *)
Inductive message : Type :=
| MsgCredentials                      (* line 286 *)
| MsgSearching (user : string)        (* line 292 *)
| MsgRetrieved (n : nat)              (* line 294 *)
| MsgNoPhotos (model : string)        (* line 299 *)
| MsgFound (n : nat) (model : string) (* line 301 *)
| MsgAdding (photoset : string)       (* line 306 *)
| MsgDone                             (* line 308 *)
| MsgCreating (title : string)        (* line 314 *)
| MsgCreated (photoset : string)      (* line 316 *)
| MsgAllAdded.                        (* line 319 *)

Inductive event : Type :=
| EvTokenValid (key secret perms : string)
| EvAuthBrowser (key secret perms : string)
| EvSearch (user extras : string) (per_page page : Z)
| EvGetExif (photo : string)
| EvCreate (title primary description : string)
| EvAddPhoto (photoset photo : string)
| EvSleep (milliseconds : Z)
| EvPrint (m : message).

Definition trace : Type := list event.

(** What a remote call does: it returns or it raises. *)
Inductive reply (A : Type) : Type :=
| Reply (a : A)
| Fail (e : exn).
Arguments Reply {A} a.
Arguments Fail {A} e.

(** The service as seen through the [flickrapi.FlickrAPI] object.  Each
    method gets the trace up to the call, so a reply may depend on
    earlier calls (an [addPhoto] of a photo that was added before). *)
Record FlickrAPI : Type := mkFlickr {
  token_valid : trace -> string -> string -> string -> reply bool;
  authenticate_via_browser : trace -> string -> string -> string -> reply unit;
  photos_search : trace -> string -> string -> Z -> Z -> reply search_response;
  photos_getExif : trace -> string -> reply exif_response;
  photosets_create : trace -> string -> string -> string -> reply string;
  photosets_addPhoto : trace -> string -> string -> reply unit
}.

Inductive outcome (A : Type) : Type :=
| Ret (a : A)
| Raise (e : exn)
| OutOfFuel.
Arguments Ret {A} a.
Arguments Raise {A} e.
Arguments OutOfFuel {A}.

(** A computation reads the trace so far and extends it. *)
Definition M (A : Type) : Type := trace -> outcome A * trace.

Definition ret {A} (a : A) : M A := fun h => (Ret a, h).

Definition bind {A B} (m : M A) (k : A -> M B) : M B :=
  fun h =>
    match m h with
    | (Ret a, h') => k a h'
    | (Raise e, h') => (Raise e, h')
    | (OutOfFuel, h') => (OutOfFuel, h')
    end.

Definition raise {A} (e : exn) : M A := fun h => (Raise e, h).

Definition out_of_fuel {A} : M A := fun h => (OutOfFuel, h).

Declare Scope py_scope.
Delimit Scope py_scope with py.
Notation "x <- m ;; k" := (bind m (fun x => k))
  (at level 100, m at next level, right associativity) : py_scope.
Notation "m ;; k" := (bind m (fun _ => k))
  (at level 100, right associativity) : py_scope.
Open Scope py_scope.

(** A remote call: the call is recorded, then the service answers from
    the trace before it. *)
Definition call {A} (ev : event) (answer : trace -> reply A) : M A :=
  fun h =>
    match answer h with
    | Reply a => (Ret a, h ++ [ev])
    | Fail e => (Raise e, h ++ [ev])
    end.

Definition emit (ev : event) : M unit := fun h => (Ret tt, h ++ [ev]).

Definition sleep (milliseconds : Z) : M unit := emit (EvSleep milliseconds).

Definition print (m : message) : M unit := emit (EvPrint m).

(** [try: m  except flickrapi.exceptions.FlickrError: handler] *)
Definition try_except_FlickrError {A} (m : M A) (handler : M A) : M A :=
  fun h =>
    match m h with
    | (Raise FlickrError, h') => handler h'
    | r => r
    end.

(** ** The script *)

(** [authenticate], lines 87-92.  The returned object is the service
    itself, so the model returns nothing. *)
Definition authenticate (flickr : FlickrAPI) (api_key api_secret perms : string)
  : M unit :=
  valid <- call (EvTokenValid api_key api_secret perms)
                (fun h => token_valid flickr h api_key api_secret perms) ;;
  if negb valid
  then call (EvAuthBrowser api_key api_secret perms)
            (fun h => authenticate_via_browser flickr h api_key api_secret perms)
  else ret tt.

(** The [while True] loop of [search_photos_by_user], lines 129-138; one
    unit of fuel per iteration. *)
Fixpoint search_loop (fuel : nat) (flickr : FlickrAPI)
    (user_id extras : string) (per_page page : Z) (photos : list photo)
  : M (list photo) :=
  match fuel with
  | O => out_of_fuel
  | S fuel' =>
      response <- call (EvSearch user_id extras per_page page)
                       (fun h => photos_search flickr h user_id extras per_page page) ;;
      let photos := photos ++ photo_list response in
      if page >=? pages response
      then ret photos
      else sleep 1000 ;;
           search_loop fuel' flickr user_id extras per_page (page + 1) photos
  end.

(** [search_photos_by_user], lines 127-139. *)
Definition search_photos_by_user (fuel : nat) (flickr : FlickrAPI)
    (user_id extras : string) (per_page : Z) : M (list photo) :=
  search_loop fuel flickr user_id extras per_page 1 [].

(** The test of line 172. *)
Definition is_model_tag (t : exif_tag) : bool :=
  (Str.lower (Str.get_str (label t)) =? "model")%string
  || (Str.lower (Str.get_str (tag t)) =? "model")%string.

(** Lines 173-177: [raw.get('_content')] for a dict, [raw] otherwise. *)
Definition raw_content (r : raw_value) : option string :=
  match r with
  | RawMissing => None
  | RawStr s => Some s
  | RawDict content => content
  end.

(** The [for tag in tags] loop of lines 169-178: it returns at the first
    entry that passes the test. *)
Fixpoint scan_tags (tags : list exif_tag) : option string :=
  match tags with
  | [] => None
  | t :: tags' => if is_model_tag t then raw_content (raw t) else scan_tags tags'
  end.

(** [exif.get('photo', {}).get('exif', [])], line 168. *)
Definition exif_tags (exif : exif_response) : list exif_tag :=
  match exif with
  | Some (Some tags) => tags
  | _ => []
  end.

(** [get_camera_for_photo], lines 163-178. *)
Definition get_camera_for_photo (flickr : FlickrAPI) (photo_id : string)
  : M (option string) :=
  got <- try_except_FlickrError
           (exif <- call (EvGetExif photo_id)
                         (fun h => photos_getExif flickr h photo_id) ;;
            ret (Some exif))
           (ret None) ;;
  match got with
  | None => ret None
  | Some exif => ret (scan_tags (exif_tags exif))
  end.

(** Lines 206-209: the machine tags are present, non-empty, and the
    normalized camera model occurs in them. *)
Definition tags_match (camera_model : string) (p : photo) : bool :=
  let machine_tags := Str.get_str (machine_tags p) in
  Str.truthy machine_tags
  && Str.str_in (normalize camera_model) (normalize machine_tags).

(** Line 214: [model and model.lower() == camera_model.lower()]. *)
Definition model_matches (camera_model : string) (model : option string) : bool :=
  match model with
  | Some m => Str.truthy m && (Str.lower m =? Str.lower camera_model)%string
  | None => false
  end.

(** The [for photo in photos] loop of [filter_photos_by_camera], lines
    200-215, with [matching_ids] as accumulator. *)
Fixpoint filter_loop (flickr : FlickrAPI) (camera_model : string)
    (photos : list photo) (matching_ids : list string) : M (list string) :=
  match photos with
  | [] => ret matching_ids
  | photo :: photos' =>
      let photo_id := photo_id photo in
      if tags_match camera_model photo
      then filter_loop flickr camera_model photos' (matching_ids ++ [photo_id])
      else
        model <- get_camera_for_photo flickr photo_id ;;
        if model_matches camera_model model
        then filter_loop flickr camera_model photos' (matching_ids ++ [photo_id])
        else filter_loop flickr camera_model photos' matching_ids
  end.

(** [filter_photos_by_camera], lines 199-216. *)
Definition filter_photos_by_camera (flickr : FlickrAPI) (photos : list photo)
    (camera_model : string) : M (list string) :=
  filter_loop flickr camera_model photos [].

(** [create_photoset], lines 241-242. *)
Definition create_photoset (flickr : FlickrAPI)
    (title primary_photo_id description : string) : M string :=
  call (EvCreate title primary_photo_id description)
       (fun h => photosets_create flickr h title primary_photo_id description).

(** [add_photos_to_photoset], lines 262-265. *)
Fixpoint add_photos_to_photoset (flickr : FlickrAPI) (photoset_id : string)
    (photo_ids : list string) : M unit :=
  match photo_ids with
  | [] => ret tt
  | pid :: photo_ids' =>
      call (EvAddPhoto photoset_id pid)
           (fun h => photosets_addPhoto flickr h photoset_id pid) ;;
      sleep 500 ;;
      add_photos_to_photoset flickr photoset_id photo_ids'
  end.

(** The namespace [parse_args] returns; [photoset_id] defaults to [None]. *)
Record args : Type := mkArgs {
  api_key : string;
  api_secret : string;
  user_id : string;
  camera_model : string;
  photoset_id : option string;
  album_title : string;
  album_desc : string
}.

(** Lines 283-297 of [main]: everything up to the binding of
    [matching_ids]. *)
Definition main_match (fuel : nat) (flickr : FlickrAPI) (a : args)
  : M (list string) :=
  if negb (Str.truthy (api_key a)) || negb (Str.truthy (api_secret a))
  then print MsgCredentials ;; raise (SystemExit 1)
  else
    authenticate flickr (api_key a) (api_secret a) "write" ;;
    print (MsgSearching (user_id a)) ;;
    photos <- search_photos_by_user fuel flickr (user_id a) "machine_tags" 500 ;;
    print (MsgRetrieved (List.length photos)) ;;
    filter_photos_by_camera flickr photos (camera_model a).

(** Lines 298-319 of [main]: what is done with [matching_ids]. *)
Definition main_assemble (flickr : FlickrAPI) (a : args)
    (matching_ids : list string) : M unit :=
  match matching_ids with
  | [] => print (MsgNoPhotos (camera_model a))
  | primary_id :: rest_ids =>
      print (MsgFound (List.length matching_ids) (camera_model a)) ;;
      if Str.truthy (Str.get_str (photoset_id a))
      then
        let photoset_id := Str.get_str (photoset_id a) in
        print (MsgAdding photoset_id) ;;
        add_photos_to_photoset flickr photoset_id matching_ids ;;
        print MsgDone
      else
        print (MsgCreating (album_title a)) ;;
        photoset_id <- create_photoset flickr (album_title a) primary_id (album_desc a) ;;
        print (MsgCreated photoset_id) ;;
        (match rest_ids with
         | [] => ret tt
         | _ :: _ => add_photos_to_photoset flickr photoset_id rest_ids
         end) ;;
        print MsgAllAdded
  end.

(** [main], lines 282-319, on the parsed arguments. *)
Definition main (fuel : nat) (flickr : FlickrAPI) (a : args) : M unit :=
  matching_ids <- main_match fuel flickr a ;;
  main_assemble flickr a matching_ids.

(** The status the process ends with: 0 when [main] returns, the code of
    [sys.exit], 1 for any other uncaught exception. *)
Definition exit_status (o : outcome unit) : option Z :=
  match o with
  | Ret _ => Some 0
  | Raise (SystemExit code) => Some code
  | Raise _ => Some 1
  | OutOfFuel => None
  end.

(** ** Concrete services, for running the script on examples *)
Module Examples.

(** A service on which every call succeeds: the token is valid, the
    search has one empty page, no photo has EXIF entries. *)
Definition quiet : FlickrAPI :=
  {| token_valid := fun _ _ _ _ => Reply true;
     authenticate_via_browser := fun _ _ _ _ => Reply tt;
     photos_search := fun _ _ _ _ _ => Reply (mkSearch [] 1);
     photos_getExif := fun _ _ => Reply (Some (Some []));
     photosets_create := fun _ _ _ _ => Reply "72157600000000000";
     photosets_addPhoto := fun _ _ _ => Reply tt |}.

(** [quiet] with the given search pages (numbered from 1, [pages] always
    their number) and the given EXIF reply per photo. *)
Definition serving (pages : list (list photo))
    (exif : string -> reply exif_response) : FlickrAPI :=
  {| token_valid := token_valid quiet;
     authenticate_via_browser := authenticate_via_browser quiet;
     photos_search := fun _ _ _ _ page =>
       Reply (mkSearch (nth (Z.to_nat (page - 1)) pages [])
                       (Z.of_nat (List.length pages)));
     photos_getExif := fun _ photo => exif photo;
     photosets_create := photosets_create quiet;
     photosets_addPhoto := photosets_addPhoto quiet |}.

Definition tagged (id tags : string) : photo := mkPhoto id (Some tags).

Definition untagged (id : string) : photo := mkPhoto id None.

Definition model_entry_of (value : string) : exif_tag :=
  mkExifTag (Some "Model") (Some "Model") (RawDict (Some value)).

Definition exif_of (tags : list exif_tag) : reply exif_response :=
  Reply (Some (Some tags)).

Definition cli (key secret : string) (model : string) (photoset : option string)
  : args :=
  mkArgs key secret "87729121@N00" model photoset "Camera photos" "".

(** Two search pages of three and two records. *)
Definition two_pages : list (list photo) :=
  [[untagged "1"; untagged "2"; untagged "3"]; [untagged "4"; untagged "5"]].

(** Page [page] of a list of pages, as [serving] hands it out. *)
Definition page_of (pages : list (list photo)) (page : Z) : list photo :=
  nth (Z.to_nat (page - 1)) pages [].

(** A service with one page holding the given tagged records and no EXIF
    entries for any photo. *)
Definition one_page (photos : list photo) : FlickrAPI :=
  serving [photos] (fun _ => exif_of []).

End Examples.

(** ** The properties in the specification's own terms *)

(** [a] occurs somewhere in [b]. *)
Definition substring_of (a b : string) : Prop :=
  exists before after : string, b = (before ++ a ++ after)%string.

(** Equality up to letter case. *)
Definition same_ignoring_case (a b : string) : Prop :=
  Str.lower a = Str.lower b.

(** The record carries a non-empty machine-tag string. *)
Definition carries_tags (p : photo) (tags : string) : Prop :=
  machine_tags p = Some tags /\ tags <> "".

(** The fast path does not apply: whatever tag string the record has is
    empty or does not contain the normalized camera model. *)
Definition no_tag_match (camera_model : string) (p : photo) : Prop :=
  forall tags,
    machine_tags p = Some tags ->
    tags = "" \/ ~ substring_of (normalize camera_model) (normalize tags).

(** The entry's label or tag key is "Model", up to case. *)
Definition model_entry (t : exif_tag) : Prop :=
  same_ignoring_case (Str.get_str (label t)) "Model"
  \/ same_ignoring_case (Str.get_str (tag t)) "Model".

(** Some entry named "Model" has a value equal to the camera model up to
    case. *)
Definition some_model_entry_equals (tags : list exif_tag) (camera_model : string)
  : Prop :=
  exists t value,
    In t tags /\ model_entry t /\ raw_content (raw t) = Some value
    /\ same_ignoring_case value camera_model.

(** The first entry named "Model" has a non-empty value equal to the
    camera model up to case. *)
Definition first_model_entry_equals (tags : list exif_tag) (camera_model : string)
  : Prop :=
  exists earlier t later value,
    tags = earlier ++ t :: later
    /\ Forall (fun t' => ~ model_entry t') earlier
    /\ model_entry t
    /\ raw_content (raw t) = Some value
    /\ value <> ""
    /\ same_ignoring_case value camera_model.

(** The entries a lookup hands back: none when the service refuses. *)
Definition returned_tags (r : reply exif_response) : list exif_tag :=
  match r with
  | Reply exif => exif_tags exif
  | Fail _ => []
  end.

(** Pages [first], [first + 1], ..., [count] of them. *)
Definition page_numbers (first : Z) (count : nat) : list Z :=
  map (fun i => first + Z.of_nat i) (seq 0 count).

(** The page numbers of the search calls in a trace, in order. *)
Fixpoint searched_pages (t : trace) : list Z :=
  match t with
  | [] => []
  | EvSearch _ _ _ page :: t' => page :: searched_pages t'
  | _ :: t' => searched_pages t'
  end.

(** The create-album calls in a trace, in order. *)
Fixpoint create_calls (t : trace) : list (string * string * string) :=
  match t with
  | [] => []
  | EvCreate title primary description :: t' =>
      (title, primary, description) :: create_calls t'
  | _ :: t' => create_calls t'
  end.

(** The add-item calls in a trace, in order: album and photo. *)
Fixpoint add_calls (t : trace) : list (string * string) :=
  match t with
  | [] => []
  | EvAddPhoto photoset photo :: t' => (photoset, photo) :: add_calls t'
  | _ :: t' => add_calls t'
  end.

(** The metadata lookups in a trace, in order. *)
Fixpoint lookups (t : trace) : list string :=
  match t with
  | [] => []
  | EvGetExif photo :: t' => photo :: lookups t'
  | _ :: t' => lookups t'
  end.

(** Calls that go over the network. *)
Definition is_network_call (ev : event) : bool :=
  match ev with
  | EvSleep _ | EvPrint _ => false
  | _ => true
  end.

(** Calls that create or change an album. *)
Definition is_album_call (ev : event) : bool :=
  match ev with
  | EvCreate _ _ _ | EvAddPhoto _ _ => true
  | _ => false
  end.

Definition not_album (ev : event) : bool := negb (is_album_call ev).

(** The records kept by a list of per-record decisions. *)
Fixpoint kept (photos : list photo) (decisions : list bool) : list photo :=
  match photos, decisions with
  | p :: photos', true :: decisions' => p :: kept photos' decisions'
  | _ :: photos', false :: decisions' => kept photos' decisions'
  | _, _ => []
  end.

(** The fast path applies: the record carries a non-empty tag string in
    which the normalized camera model occurs. *)
Definition tag_matches (camera_model : string) (p : photo) : Prop :=
  exists tags,
    carries_tags p tags
    /\ substring_of (normalize camera_model) (normalize tags).

(** The record is a match when its lookup, if one is needed, is made
    after the trace [h]. *)
Definition matches_at (flickr : FlickrAPI) (camera_model : string)
    (h : trace) (p : photo) : Prop :=
  tag_matches camera_model p
  \/ first_model_entry_equals
       (returned_tags (photos_getExif flickr h (photo_id p))) camera_model.

(** Whatever the trace before it, the computation only appends events
    that [allowed] accepts. *)
Definition emits {A} (allowed : event -> bool) (m : M A) : Prop :=
  forall h, exists d, snd (m h) = h ++ d /\ forallb allowed d = true.

(** ** More services *)
Module Services.

(** A service whose search always reports one page more than the page
    asked for. *)
Definition growing : FlickrAPI :=
  {| token_valid := token_valid Examples.quiet;
     authenticate_via_browser := authenticate_via_browser Examples.quiet;
     photos_search := fun _ _ _ _ page => Reply (mkSearch [] (page + 1));
     photos_getExif := photos_getExif Examples.quiet;
     photosets_create := photosets_create Examples.quiet;
     photosets_addPhoto := photosets_addPhoto Examples.quiet |}.

(** A service with three pages of one record whose search fails on and
    after the given page. *)
Definition failing_from (page0 : Z) (e : exn) : FlickrAPI :=
  {| token_valid := token_valid Examples.quiet;
     authenticate_via_browser := authenticate_via_browser Examples.quiet;
     photos_search := fun _ _ _ _ page =>
       if page0 <=? page then Fail e
       else Reply (mkSearch [Examples.untagged "1"] 3);
     photos_getExif := photos_getExif Examples.quiet;
     photosets_create := photosets_create Examples.quiet;
     photosets_addPhoto := photosets_addPhoto Examples.quiet |}.

(** An album that refuses a photo it already holds: the primary photo of
    the create call, or a photo of an earlier add call. *)
Fixpoint holds (photo : string) (h : trace) : bool :=
  match h with
  | [] => false
  | EvCreate _ primary _ :: h' => (primary =? photo)%string || holds photo h'
  | EvAddPhoto _ added :: h' => (added =? photo)%string || holds photo h'
  | _ :: h' => holds photo h'
  end.

(** The service of [Examples.one_page], with such an album. *)
Definition strict_album (photos : list photo) : FlickrAPI :=
  {| token_valid := token_valid Examples.quiet;
     authenticate_via_browser := authenticate_via_browser Examples.quiet;
     photos_search := photos_search (Examples.one_page photos);
     photos_getExif := photos_getExif Examples.quiet;
     photosets_create := photosets_create Examples.quiet;
     photosets_addPhoto := fun h _ photo =>
       if holds photo h then Fail FlickrError else Reply tt |}.

(** A service whose stored token is not valid, or whose calls fail. *)
Definition with_auth (valid : reply bool) (browser : reply unit) : FlickrAPI :=
  {| token_valid := fun _ _ _ _ => valid;
     authenticate_via_browser := fun _ _ _ _ => browser;
     photos_search := photos_search Examples.quiet;
     photos_getExif := photos_getExif Examples.quiet;
     photosets_create := photosets_create Examples.quiet;
     photosets_addPhoto := photosets_addPhoto Examples.quiet |}.

(** [Examples.one_page] with a create call that fails. *)
Definition no_create (photos : list photo) (e : exn) : FlickrAPI :=
  {| token_valid := token_valid Examples.quiet;
     authenticate_via_browser := authenticate_via_browser Examples.quiet;
     photos_search := photos_search (Examples.one_page photos);
     photos_getExif := photos_getExif Examples.quiet;
     photosets_create := fun _ _ _ _ => Fail e;
     photosets_addPhoto := photosets_addPhoto Examples.quiet |}.


End Services.

(** ** Further notions, for the properties beyond the claims *)

(** The three characters that line 209 strips. *)
Definition is_separator (c : ascii) : bool :=
  Ascii.eqb c " " || Ascii.eqb c "-" || Ascii.eqb c "_".

(** A character that normalization leaves alone: [lower] does not change
    it and it is not stripped. *)
Definition is_normal (c : ascii) : bool :=
  Ascii.eqb (Str.lower_char c) c && negb (is_separator c).

(** Every character of the string passes the test. *)
Fixpoint all_chars (f : ascii -> bool) (s : string) : bool :=
  match s with
  | EmptyString => true
  | String c s' => f c && all_chars f s'
  end.

(** The fast path does not decide the record: line 213 is reached. *)
Definition needs_lookup (camera_model : string) (p : photo) : bool :=
  negb (tags_match camera_model p).

(** The classification of a record by a service whose EXIF replies do
    not depend on earlier calls: the fast path, or the value scanned from
    the reply for that photo. *)
Definition record_matches (flickr : FlickrAPI) (camera_model : string)
    (p : photo) : bool :=
  tags_match camera_model p
  || model_matches camera_model
       (scan_tags (returned_tags (photos_getExif flickr [] (photo_id p)))).

Definition is_auth_call (ev : event) : bool :=
  match ev with
  | EvTokenValid _ _ _ | EvAuthBrowser _ _ _ => true
  | _ => false
  end.

Definition is_search_call (ev : event) : bool :=
  match ev with
  | EvSearch _ _ _ _ => true
  | _ => false
  end.

Definition is_lookup_call (ev : event) : bool :=
  match ev with
  | EvGetExif _ => true
  | _ => false
  end.

(** An event that is of the given kind or stays on the machine (a sleep
    or a print). *)
Definition only (kind : event -> bool) (ev : event) : bool :=
  kind ev || negb (is_network_call ev).

(** What a search over [count] pages from page [first] leaves in the
    trace: one call per page, a one-second sleep between two calls. *)
Fixpoint search_trace (user extras : string) (per_page first : Z) (count : nat)
  : trace :=
  match count with
  | O => []
  | S count' =>
      match count' with
      | O => [EvSearch user extras per_page first]
      | S _ =>
          EvSearch user extras per_page first :: EvSleep 1000
          :: search_trace user extras per_page (first + 1) count'
      end
  end.

(** What adding the given photos to an album leaves in the trace: each
    call followed by a half-second sleep. *)
Definition add_trace (photoset : string) (photo_ids : list string) : trace :=
  flat_map (fun pid => [EvAddPhoto photoset pid; EvSleep 500]) photo_ids.

(** The time slept in a trace, in milliseconds. *)
Fixpoint slept (t : trace) : Z :=
  match t with
  | [] => 0
  | EvSleep milliseconds :: t' => milliseconds + slept t'
  | _ :: t' => slept t'
  end.

(** The computation extends the trace by consecutive parts, one per
    kind, the events of a part being of that kind or local. *)
Definition in_phases {A} (kinds : list (event -> bool)) (m : M A) : Prop :=
  forall h, exists parts,
    snd (m h) = h ++ List.concat parts
    /\ Forall2 (fun kind part => forallb (only kind) part = true) kinds parts.

(** The calls a run with the arguments [a] is expected to make: the
    token check and the browser flow with the given credentials and
    ['write'] permission; searches for the given user with the
    [machine_tags] extra, 500 per page, from page 1 on; create calls with
    the given title and description; sleeps of one second or half a
    second. *)
Definition expected_call (a : args) (ev : event) : bool :=
  match ev with
  | EvTokenValid key secret perms | EvAuthBrowser key secret perms =>
      (key =? api_key a)%string && (secret =? api_secret a)%string
      && (perms =? "write")%string
  | EvSearch user extras per_page page =>
      (user =? user_id a)%string && (extras =? "machine_tags")%string
      && (per_page =? 500) && (1 <=? page)
  | EvCreate title _ description =>
      (title =? album_title a)%string && (description =? album_desc a)%string
  | EvSleep milliseconds => (milliseconds =? 1000) || (milliseconds =? 500)
  | EvGetExif _ | EvAddPhoto _ _ | EvPrint _ => true
  end.

(** An album call about one of the given photos, or no album call. *)
Definition about (ids : list string) (ev : event) : bool :=
  match ev with
  | EvCreate _ primary _ => existsb (String.eqb primary) ids
  | EvAddPhoto _ photo => existsb (String.eqb photo) ids
  | _ => true
  end.

(** Some search response for the arguments' user holds a record with
    this identifier. *)
Definition search_returns (flickr : FlickrAPI) (a : args) (photo : string) : Prop :=
  exists h page r,
    photos_search flickr h (user_id a) "machine_tags" 500 page = Reply r
    /\ In photo (map photo_id (photo_list r)).

(** ** Strings *)

Lemma prefix_iff (a b : string) :
  String.prefix a b = true <-> exists after, b = (a ++ after)%string.
Proof.
  revert b; induction a as [|c a IH]; intros b.
  - split; [intros _; now exists b | intros _; now destruct b].
  - destruct b as [|d b]; simpl.
    + split; [discriminate | intros [after H]; discriminate].
    + destruct (ascii_dec c d) as [->|ne].
      * rewrite IH. split; intros [after H]; exists after.
        -- now rewrite H.
        -- now injection H.
      * split; [discriminate | intros [after H]; injection H; congruence].
Qed.

Lemma str_in_iff (a b : string) :
  Str.str_in a b = true <-> substring_of a b.
Proof.
  unfold substring_of. induction b as [|d b IH].
  - cbn [Str.str_in]. rewrite orb_false_r, prefix_iff. split.
    + intros [after H]. now exists "", after.
    + intros [[|c before] [after H]]; [now exists after | discriminate].
  - cbn [Str.str_in]. rewrite orb_true_iff, IH, prefix_iff. split.
    + intros [[after H] | [before [after H]]].
      * now exists "", after.
      * exists (String d before), after. now rewrite H.
    + intros [[|c before] [after H]].
      * left. now exists after.
      * right. exists before, after. now injection H.
Qed.

Lemma str_in_empty (b : string) : Str.str_in "" b = true.
Proof. apply str_in_iff. now exists "", b. Qed.

Lemma truthy_iff (s : string) : Str.truthy s = true <-> s <> "".
Proof. destruct s; simpl; split; congruence. Qed.

Lemma tags_match_carried (camera_model : string) (p : photo) (tags : string) :
  carries_tags p tags ->
  tags_match camera_model p
  = Str.str_in (normalize camera_model) (normalize tags).
Proof.
  intros [Htags Hne]. unfold tags_match. rewrite Htags. simpl.
  apply truthy_iff in Hne. now rewrite Hne.
Qed.

Lemma tags_match_false (camera_model : string) (p : photo) :
  no_tag_match camera_model p -> tags_match camera_model p = false.
Proof.
  intros H. unfold tags_match.
  destruct (machine_tags p) as [tags|] eqn:E; simpl; [|reflexivity].
  destruct (H tags E) as [-> | Hno]; [reflexivity|].
  destruct (Str.str_in _ _) eqn:Hin;
    [apply str_in_iff in Hin; contradiction | apply andb_false_r].
Qed.

Lemma exn_eq_FlickrError (e : exn) : {e = FlickrError} + {e <> FlickrError}.
Proof. destruct e; [now left | now right | now right]. Qed.

(** ** The per-photo lookup *)

Section Lookup.
Variable flickr : FlickrAPI.
Variable photo : string.
Variable h : trace.

Lemma get_camera_reply (exif : exif_response) :
  photos_getExif flickr h photo = Reply exif ->
  get_camera_for_photo flickr photo h
  = (Ret (scan_tags (exif_tags exif)), h ++ [EvGetExif photo]).
Proof.
  intros H. unfold get_camera_for_photo, bind, try_except_FlickrError, call.
  now rewrite H.
Qed.

Lemma get_camera_refused :
  photos_getExif flickr h photo = Fail FlickrError ->
  get_camera_for_photo flickr photo h = (Ret None, h ++ [EvGetExif photo]).
Proof.
  intros H. unfold get_camera_for_photo, bind, try_except_FlickrError, call.
  now rewrite H.
Qed.

Lemma get_camera_raises (e : exn) :
  photos_getExif flickr h photo = Fail e ->
  e <> FlickrError ->
  get_camera_for_photo flickr photo h = (Raise e, h ++ [EvGetExif photo]).
Proof.
  intros H He. unfold get_camera_for_photo, bind, try_except_FlickrError, call.
  rewrite H. destruct e; [contradiction | reflexivity | reflexivity].
Qed.

(** Whenever the lookup does not raise, it hands back the value the
    scan finds in the returned entries. *)
Lemma get_camera_returned (r : reply exif_response) :
  photos_getExif flickr h photo = r ->
  (forall e, r = Fail e -> e = FlickrError) ->
  get_camera_for_photo flickr photo h
  = (Ret (scan_tags (returned_tags r)), h ++ [EvGetExif photo]).
Proof.
  intros H Hr. destruct r as [exif|e].
  - now apply get_camera_reply.
  - rewrite (Hr e eq_refl) in H. now apply get_camera_refused.
Qed.
End Lookup.

Lemma is_model_tag_iff (t : exif_tag) : is_model_tag t = true <-> model_entry t.
Proof.
  unfold is_model_tag, model_entry, same_ignoring_case.
  rewrite orb_true_iff, !String.eqb_eq. reflexivity.
Qed.

Lemma is_model_tag_false (t : exif_tag) :
  ~ model_entry t -> is_model_tag t = false.
Proof.
  intros H. destruct (is_model_tag t) eqn:E; [|reflexivity].
  now apply is_model_tag_iff in E.
Qed.

Lemma scan_tags_none (tags : list exif_tag) :
  Forall (fun t => ~ model_entry t) tags -> scan_tags tags = None.
Proof.
  induction 1 as [|t tags Ht _ IH]; simpl; [reflexivity|].
  now rewrite (is_model_tag_false t Ht).
Qed.

Lemma model_matches_iff (camera_model : string) (model : option string) :
  model_matches camera_model model = true
  <-> exists value,
      model = Some value /\ value <> "" /\ same_ignoring_case value camera_model.
Proof.
  unfold model_matches, same_ignoring_case. destruct model as [m|].
  - rewrite andb_true_iff, truthy_iff, String.eqb_eq. split.
    + intros [H1 H2]. now exists m.
    + intros [value [[= ->] H]]. exact H.
  - split; [discriminate | intros [value [[=] _]]].
Qed.

Lemma scan_tags_first (tags : list exif_tag) (camera_model : string) :
  model_matches camera_model (scan_tags tags) = true
  <-> first_model_entry_equals tags camera_model.
Proof.
  unfold first_model_entry_equals. induction tags as [|t tags IH]; simpl.
  - split; [discriminate|].
    intros [earlier [t [later [value [H _]]]]]. now destruct earlier.
  - destruct (is_model_tag t) eqn:Et.
    + rewrite model_matches_iff. apply is_model_tag_iff in Et. split.
      * intros [value [Hv [Hne Heq]]]. now exists [], t, tags, value.
      * intros [earlier [t' [later [value [H [Hearlier Hrest]]]]]].
        destruct earlier as [|t0 earlier].
        -- injection H as <- _. exists value. tauto.
        -- injection H as <- _. inversion Hearlier; contradiction.
    + rewrite IH. split.
      * intros [earlier [t' [later [value [H [Hearlier Hrest]]]]]].
        exists (t :: earlier), t', later, value. rewrite H. split; [reflexivity|].
        split; [|exact Hrest]. constructor; [|exact Hearlier].
        intros Hm. apply is_model_tag_iff in Hm. congruence.
      * intros [earlier [t' [later [value [H [Hearlier Hrest]]]]]].
        destruct earlier as [|t0 earlier].
        -- injection H as <- _. destruct Hrest as [Hm _].
           apply is_model_tag_iff in Hm. congruence.
        -- injection H as _ ->. exists earlier, t', later, value.
           split; [reflexivity|]. split; [now inversion Hearlier | exact Hrest].
Qed.

(** ** The matcher, one record at a time *)

Section FilterStep.
Variable flickr : FlickrAPI.
Variable camera_model : string.
Variables (p : photo) (rest : list photo).
Variables (matching_ids : list string) (h : trace).

Lemma filter_loop_fast :
  tags_match camera_model p = true ->
  filter_loop flickr camera_model (p :: rest) matching_ids h
  = filter_loop flickr camera_model rest (matching_ids ++ [photo_id p]) h.
Proof. intros H. simpl. now rewrite H. Qed.

Lemma filter_loop_lookup (model : option string) :
  tags_match camera_model p = false ->
  get_camera_for_photo flickr (photo_id p) h
  = (Ret model, h ++ [EvGetExif (photo_id p)]) ->
  filter_loop flickr camera_model (p :: rest) matching_ids h
  = filter_loop flickr camera_model rest
      (if model_matches camera_model model
       then matching_ids ++ [photo_id p] else matching_ids)
      (h ++ [EvGetExif (photo_id p)]).
Proof.
  intros H Hget. simpl. rewrite H. unfold bind at 1. rewrite Hget.
  now destruct (model_matches camera_model model).
Qed.

Lemma filter_loop_raises (e : exn) :
  tags_match camera_model p = false ->
  get_camera_for_photo flickr (photo_id p) h
  = (Raise e, h ++ [EvGetExif (photo_id p)]) ->
  filter_loop flickr camera_model (p :: rest) matching_ids h
  = (Raise e, h ++ [EvGetExif (photo_id p)]).
Proof.
  intros H Hget. simpl. rewrite H. unfold bind at 1. now rewrite Hget.
Qed.
End FilterStep.

(** ** Claims about the matcher's two tiers *)

(** C1: a record with a non-empty machine-tag string in which the
    normalized camera model occurs (both sides lower-cased and stripped of
    spaces, hyphens and underscores) is classified as a match with no
    metadata lookup: the loop appends its identifier and goes on to the
    remaining records with the trace untouched. *)
Theorem tag_fast_path (flickr : FlickrAPI) (camera_model : string)
    (p : photo) (tags : string) (rest : list photo)
    (matching_ids : list string) (h : trace) :
  carries_tags p tags ->
  substring_of (normalize camera_model) (normalize tags) ->
  filter_loop flickr camera_model (p :: rest) matching_ids h
  = filter_loop flickr camera_model rest (matching_ids ++ [photo_id p]) h
  /\ filter_photos_by_camera flickr [p] camera_model h = (Ret [photo_id p], h).
Proof.
  intros Hc Hsub.
  assert (Hm : tags_match camera_model p = true).
  { rewrite (tags_match_carried _ _ _ Hc). now apply str_in_iff. }
  split.
  - now apply filter_loop_fast.
  - unfold filter_photos_by_camera. now rewrite filter_loop_fast.
Qed.

(** The two tag strings of the specification, against the model
    "Canon EOS 7D Mark II". *)
Lemma tag_fast_path_witness :
  filter_photos_by_camera Examples.quiet
    [Examples.tagged "1" "exif:model=Canon-EOS-7D-Mark-II"]
    "Canon EOS 7D Mark II" []
  = (Ret ["1"], [])
  /\ filter_photos_by_camera Examples.quiet
       [Examples.tagged "2" "EXIF:MODEL=canon eos 7d mark ii"]
       "Canon EOS 7D Mark II" []
     = (Ret ["2"], []).
Proof.
  split.
  - apply (tag_fast_path Examples.quiet "Canon EOS 7D Mark II"
             (Examples.tagged "1" "exif:model=Canon-EOS-7D-Mark-II")
             "exif:model=Canon-EOS-7D-Mark-II" [] [] []).
    + split; [reflexivity | discriminate].
    + exists "exif:model=", "". reflexivity.
  - apply (tag_fast_path Examples.quiet "Canon EOS 7D Mark II"
             (Examples.tagged "2" "EXIF:MODEL=canon eos 7d mark ii")
             "EXIF:MODEL=canon eos 7d mark ii" [] [] []).
    + split; [reflexivity | discriminate].
    + exists "exif:model=", "". reflexivity.
Defined.

(** C10: when the camera model normalizes to the empty string (it is
    empty, or made of spaces, hyphens and underscores only), every record
    with a non-empty machine-tag string is a match on the fast path, with
    no metadata lookup. *)
Theorem empty_model_matches_every_tagged (flickr : FlickrAPI)
    (camera_model : string) (p : photo) (tags : string) (rest : list photo)
    (matching_ids : list string) (h : trace) :
  carries_tags p tags ->
  normalize camera_model = "" ->
  filter_loop flickr camera_model (p :: rest) matching_ids h
  = filter_loop flickr camera_model rest (matching_ids ++ [photo_id p]) h
  /\ filter_photos_by_camera flickr [p] camera_model h = (Ret [photo_id p], h).
Proof.
  intros Hc Hempty.
  assert (Hm : tags_match camera_model p = true).
  { rewrite (tags_match_carried _ _ _ Hc), Hempty. apply str_in_empty. }
  split.
  - now apply filter_loop_fast.
  - unfold filter_photos_by_camera. now rewrite filter_loop_fast.
Qed.

Lemma empty_model_matches_every_tagged_witness :
  filter_photos_by_camera Examples.quiet
    [Examples.tagged "1" "nikon:lens=50mm"] "" []
  = (Ret ["1"], [])
  /\ filter_photos_by_camera Examples.quiet
       [Examples.tagged "2" "nikon:lens=50mm"] " -_ " []
     = (Ret ["2"], []).
Proof.
  split.
  - apply (empty_model_matches_every_tagged Examples.quiet ""
             (Examples.tagged "1" "nikon:lens=50mm") "nikon:lens=50mm" [] [] []).
    + split; [reflexivity | discriminate].
    + reflexivity.
  - apply (empty_model_matches_every_tagged Examples.quiet " -_ "
             (Examples.tagged "2" "nikon:lens=50mm") "nikon:lens=50mm" [] [] []).
    + split; [reflexivity | discriminate].
    + reflexivity.
Defined.

(** C2, as amended: a record on which the fast path does not apply gets
    exactly one metadata lookup, and its identifier is appended exactly
    when the first returned entry whose label or tag key is "Model" (up to
    case) has a non-empty value equal to the camera model up to case.
    The lookup either returns or is refused by the service. *)
Theorem fallback_first_model_entry (flickr : FlickrAPI) (camera_model : string)
    (p : photo) (rest : list photo) (matching_ids : list string) (h : trace)
    (r : reply exif_response) :
  no_tag_match camera_model p ->
  photos_getExif flickr h (photo_id p) = r ->
  (forall e, r = Fail e -> e = FlickrError) ->
  (first_model_entry_equals (returned_tags r) camera_model ->
   filter_loop flickr camera_model (p :: rest) matching_ids h
   = filter_loop flickr camera_model rest (matching_ids ++ [photo_id p])
       (h ++ [EvGetExif (photo_id p)]))
  /\ (~ first_model_entry_equals (returned_tags r) camera_model ->
      filter_loop flickr camera_model (p :: rest) matching_ids h
      = filter_loop flickr camera_model rest matching_ids
          (h ++ [EvGetExif (photo_id p)])).
Proof.
  intros Hno Hr Hfail.
  pose proof (tags_match_false _ _ Hno) as Hm.
  pose proof (get_camera_returned flickr (photo_id p) h r Hr Hfail) as Hget.
  rewrite (filter_loop_lookup flickr camera_model p rest matching_ids h _ Hm Hget).
  destruct (model_matches camera_model (scan_tags (returned_tags r))) eqn:E.
  - split; [reflexivity|]. intros Hn. now apply scan_tags_first in E.
  - split; [|reflexivity]. intros Hy. apply scan_tags_first in Hy. congruence.
Qed.

(** A photo with no machine tags whose one "Model" entry is "CANON eos 7d
    mark ii": one lookup, and a match. *)
Lemma fallback_first_model_entry_witness :
  filter_loop
    (Examples.serving []
       (fun _ => Examples.exif_of [Examples.model_entry_of "CANON eos 7d mark ii"]))
    "Canon EOS 7D Mark II" [Examples.untagged "1"] [] []
  = (Ret ["1"], [EvGetExif "1"]).
Proof.
  refine (proj1 (fallback_first_model_entry
             (Examples.serving []
                (fun _ => Examples.exif_of
                            [Examples.model_entry_of "CANON eos 7d mark ii"]))
             "Canon EOS 7D Mark II" (Examples.untagged "1") [] [] []
             (Examples.exif_of [Examples.model_entry_of "CANON eos 7d mark ii"])
             _ _ _) _).
  - intros tags H. discriminate H.
  - reflexivity.
  - intros e H. discriminate H.
  - exists [], (Examples.model_entry_of "CANON eos 7d mark ii"), [],
      "CANON eos 7d mark ii".
    repeat split; try reflexivity; try discriminate.
    + constructor.
    + left. reflexivity.
Defined.

(** C2 as the specification words it fails: the lookup returns a "Model"
    entry whose value is the camera model, yet the photo is not a match,
    because an earlier "Model" entry carries another value. *)
Lemma some_model_entry_not_enough :
  let flickr :=
    Examples.serving []
      (fun _ => Examples.exif_of [Examples.model_entry_of "Canon MakerNote";
                                  Examples.model_entry_of "Canon EOS 7D Mark II"]) in
  no_tag_match "Canon EOS 7D Mark II" (Examples.untagged "1")
  /\ some_model_entry_equals
       (returned_tags (photos_getExif flickr [] "1")) "Canon EOS 7D Mark II"
  /\ filter_photos_by_camera flickr [Examples.untagged "1"]
       "Canon EOS 7D Mark II" []
     = (Ret [], [EvGetExif "1"]).
Proof.
  cbv zeta. split; [|split].
  - intros tags H. discriminate H.
  - exists (Examples.model_entry_of "Canon EOS 7D Mark II"), "Canon EOS 7D Mark II".
    simpl. repeat split.
    + right. left. reflexivity.
    + left. reflexivity.
  - reflexivity.
Qed.

(** The guard [model and ...] of line 214: an empty value is never a
    match, not even for an empty camera model. *)
Lemma empty_model_value_is_no_match :
  filter_photos_by_camera
    (Examples.serving [] (fun _ => Examples.exif_of [Examples.model_entry_of ""]))
    [Examples.untagged "1"] "" []
  = (Ret [], [EvGetExif "1"]).
Proof. reflexivity. Qed.

(** C7: when the lookup of a record is refused by the service, or returns
    no entry named "Model", the record is not a match and the loop goes on
    with the remaining records; nothing is raised. *)
Theorem metadata_unavailable_is_no_match (flickr : FlickrAPI)
    (camera_model : string) (p : photo) (rest : list photo)
    (matching_ids : list string) (h : trace) :
  no_tag_match camera_model p ->
  photos_getExif flickr h (photo_id p) = Fail FlickrError
  \/ (exists exif,
        photos_getExif flickr h (photo_id p) = Reply exif
        /\ Forall (fun t => ~ model_entry t) (exif_tags exif)) ->
  filter_loop flickr camera_model (p :: rest) matching_ids h
  = filter_loop flickr camera_model rest matching_ids
      (h ++ [EvGetExif (photo_id p)])
  /\ filter_photos_by_camera flickr [p] camera_model h
     = (Ret [], h ++ [EvGetExif (photo_id p)]).
Proof.
  intros Hno Hlookup.
  pose proof (tags_match_false _ _ Hno) as Hm.
  assert (Hget : get_camera_for_photo flickr (photo_id p) h
                 = (Ret None, h ++ [EvGetExif (photo_id p)])).
  { destruct Hlookup as [Hfail | [exif [Hreply Hnone]]].
    - now apply get_camera_refused.
    - rewrite (get_camera_reply _ _ _ _ Hreply). now rewrite scan_tags_none. }
  split.
  - now rewrite (filter_loop_lookup _ _ _ _ _ _ _ Hm Hget).
  - unfold filter_photos_by_camera.
    now rewrite (filter_loop_lookup _ _ _ _ _ _ _ Hm Hget).
Qed.

(** Photo "1" has its metadata hidden, photo "2" is a match: the first is
    skipped and the second is still found. *)
Lemma metadata_unavailable_is_no_match_witness :
  let flickr :=
    Examples.serving []
      (fun id => if (id =? "1")%string then Fail FlickrError
                 else Examples.exif_of [Examples.model_entry_of "Canon EOS 7D Mark II"]) in
  filter_loop flickr "Canon EOS 7D Mark II"
    [Examples.untagged "1"; Examples.untagged "2"] [] []
  = (Ret ["2"], [EvGetExif "1"; EvGetExif "2"]).
Proof.
  cbv zeta.
  refine (eq_trans (proj1 (metadata_unavailable_is_no_match _
             "Canon EOS 7D Mark II" (Examples.untagged "1")
             [Examples.untagged "2"] [] [] _ _)) _).
  - intros tags H. discriminate H.
  - left. reflexivity.
  - reflexivity.
Defined.

(** ** The matcher on a whole list *)

Lemma tags_match_iff (camera_model : string) (p : photo) :
  tags_match camera_model p = true <-> tag_matches camera_model p.
Proof.
  unfold tag_matches. split.
  - unfold tags_match. intros H. apply andb_true_iff in H as [Ht Hin].
    destruct (machine_tags p) as [tags|] eqn:E; simpl in *; [|discriminate].
    exists tags. split; [split; [exact E | now apply truthy_iff]|].
    now apply str_in_iff.
  - intros [tags [Hc Hsub]]. rewrite (tags_match_carried _ _ _ Hc).
    now apply str_in_iff.
Qed.

Lemma no_tag_match_iff (camera_model : string) (p : photo) :
  tags_match camera_model p = false <-> no_tag_match camera_model p.
Proof.
  split; [|apply tags_match_false].
  intros H tags Htags. destruct tags as [|c tags]; [now left | right].
  intros Hsub. enough (tags_match camera_model p = true) by congruence.
  apply tags_match_iff. exists (String c tags). repeat split; congruence.
Qed.

Lemma kept_ids_subset (photos : list photo) (decisions : list bool) (id : string) :
  In id (map photo_id (kept photos decisions)) -> In id (map photo_id photos).
Proof.
  revert decisions. induction photos as [|p photos IH]; intros [|[|] decisions];
    simpl; try tauto.
  - intros [H | H]; [now left | right; eauto].
  - intros H. right. eauto.
Qed.


(** One record on which the fast path does not apply: the lookup's
    failure propagates, or the record is decided by the returned entries. *)
Lemma filter_loop_fallback (flickr : FlickrAPI) (camera_model : string)
    (p : photo) (rest : list photo) (matching_ids : list string) (h : trace) :
  tags_match camera_model p = false ->
  (exists b : bool,
      filter_loop flickr camera_model (p :: rest) matching_ids h
      = filter_loop flickr camera_model rest
          (if b then matching_ids ++ [photo_id p] else matching_ids)
          (h ++ [EvGetExif (photo_id p)])
      /\ (b = true
          <-> first_model_entry_equals
                (returned_tags (photos_getExif flickr h (photo_id p)))
                camera_model))
  \/ (exists e,
         e <> FlickrError
         /\ filter_loop flickr camera_model (p :: rest) matching_ids h
            = (Raise e, h ++ [EvGetExif (photo_id p)])).
Proof.
  intros Hm.
  destruct (photos_getExif flickr h (photo_id p)) as [exif|e] eqn:Hr.
  - left. exists (model_matches camera_model (scan_tags (exif_tags exif))).
    split; [|apply scan_tags_first].
    apply filter_loop_lookup; [exact Hm | now apply get_camera_reply].
  - destruct (exn_eq_FlickrError e) as [->|He].
    + left. exists false. split.
      * apply (filter_loop_lookup _ _ _ _ _ _ None Hm).
        now apply get_camera_refused.
      * split; [discriminate|]. intros H. apply scan_tags_first in H.
        discriminate H.
    + right. exists e. split; [exact He|].
      apply filter_loop_raises; [exact Hm | now apply get_camera_raises].
Qed.

(** The loop either returns the accumulator extended, in order, by the
    records it decided to keep, each decision being that record's
    classification at the time it was looked at, or it propagates a
    lookup failure that is not a service refusal. *)
Lemma filter_loop_decisions (flickr : FlickrAPI) (camera_model : string)
    (photos : list photo) :
  forall (matching_ids : list string) (h : trace),
    (exists decisions h',
        filter_loop flickr camera_model photos matching_ids h
        = (Ret (matching_ids ++ map photo_id (kept photos decisions)), h')
        /\ Forall2 (fun p (b : bool) =>
                      exists h1, b = true <-> matches_at flickr camera_model h1 p)
             photos decisions)
    \/ (exists e h',
           e <> FlickrError
           /\ filter_loop flickr camera_model photos matching_ids h = (Raise e, h')).
Proof.
  induction photos as [|p photos IH]; intros matching_ids h.
  - left. exists [], h. simpl. rewrite app_nil_r. split; [reflexivity | constructor].
  - destruct (tags_match camera_model p) eqn:Hm.
    + rewrite (filter_loop_fast _ _ _ _ _ _ Hm).
      destruct (IH (matching_ids ++ [photo_id p]) h)
        as [[decisions [h' [Hrun Hdec]]] | [e [h' [He Hrun]]]].
      * left. exists (true :: decisions), h'. split.
        -- rewrite Hrun. simpl. now rewrite <- app_assoc.
        -- constructor; [|exact Hdec]. exists h. split; [|reflexivity].
           intros _. left. now apply tags_match_iff.
      * right. now exists e, h'.
    + destruct (filter_loop_fallback flickr camera_model p photos matching_ids h Hm)
        as [[b [Hstep Hb]] | [e [He Hstep]]]; rewrite Hstep.
      2: { right. now exists e, (h ++ [EvGetExif (photo_id p)]). }
      destruct (IH (if b then matching_ids ++ [photo_id p] else matching_ids)
                   (h ++ [EvGetExif (photo_id p)]))
        as [[decisions [h' [Hrun Hdec]]] | [e [h' [He Hrun]]]].
      * left. exists (b :: decisions), h'. split.
        -- rewrite Hrun. destruct b; simpl; now rewrite <- ?app_assoc.
        -- constructor; [|exact Hdec]. exists h. rewrite Hb. unfold matches_at.
           split; [now right|]. intros [H | H]; [|exact H].
           apply tags_match_iff in H. congruence.
      * right. now exists e, h'.
Qed.




(** ** Traces *)

Lemma emits_ret {A} (allowed : event -> bool) (a : A) : emits allowed (ret a).
Proof. intros h. exists []. now rewrite app_nil_r. Qed.

Lemma emits_raise {A} (allowed : event -> bool) (e : exn) :
  emits allowed (@raise A e).
Proof. intros h. exists []. now rewrite app_nil_r. Qed.

Lemma emits_out_of_fuel {A} (allowed : event -> bool) :
  emits allowed (@out_of_fuel A).
Proof. intros h. exists []. now rewrite app_nil_r. Qed.

Lemma emits_bind {A B} (allowed : event -> bool) (m : M A) (k : A -> M B) :
  emits allowed m -> (forall a, emits allowed (k a)) -> emits allowed (bind m k).
Proof.
  intros Hm Hk h. destruct (Hm h) as [d [Hd Hall]]. unfold bind.
  destruct (m h) as [[a|e|] h']; simpl in Hd; subst h'.
  - destruct (Hk a (h ++ d)) as [d' [Hd' Hall']]. exists (d ++ d').
    rewrite Hd', app_assoc, forallb_app, Hall, Hall'. now split.
  - now exists d.
  - now exists d.
Qed.

Lemma emits_call {A} (allowed : event -> bool) (ev : event)
    (answer : trace -> reply A) :
  allowed ev = true -> emits allowed (call ev answer).
Proof.
  intros Hev h. exists [ev]. unfold call.
  destruct (answer h); simpl; now rewrite Hev.
Qed.

Lemma emits_emit (allowed : event -> bool) (ev : event) :
  allowed ev = true -> emits allowed (emit ev).
Proof. intros Hev h. exists [ev]. simpl. now rewrite Hev. Qed.

Lemma emits_try {A} (allowed : event -> bool) (m handler : M A) :
  emits allowed m -> emits allowed handler ->
  emits allowed (try_except_FlickrError m handler).
Proof.
  intros Hm Hh h. destruct (Hm h) as [d [Hd Hall]].
  unfold try_except_FlickrError.
  destruct (m h) as [[a|e|] h']; simpl in Hd; subst h'; try (now exists d).
  destruct e; try (now exists d).
  destruct (Hh (h ++ d)) as [d' [Hd' Hall']]. exists (d ++ d').
  rewrite Hd', app_assoc, forallb_app, Hall, Hall'. now split.
Qed.

Ltac emits_step :=
  first [ apply emits_bind; [|intros ?]
        | apply emits_ret | apply emits_raise | apply emits_out_of_fuel
        | apply emits_try
        | apply emits_call; reflexivity
        | apply emits_emit; reflexivity ].

Lemma authenticate_emits (flickr : FlickrAPI) (key secret perms : string) :
  emits not_album (authenticate flickr key secret perms).
Proof.
  unfold authenticate. emits_step; [emits_step|].
  destruct (negb a); emits_step.
Qed.

Lemma search_loop_emits (flickr : FlickrAPI) (user extras : string) (per_page : Z) :
  forall fuel page photos,
    emits not_album (search_loop fuel flickr user extras per_page page photos).
Proof.
  induction fuel as [|fuel IH]; intros page photos; simpl; [emits_step|].
  emits_step; [emits_step|].
  destruct (page >=? pages a); [emits_step|].
  emits_step; [unfold sleep; emits_step | apply IH].
Qed.

Lemma get_camera_emits (flickr : FlickrAPI) (photo : string) :
  emits not_album (get_camera_for_photo flickr photo).
Proof.
  unfold get_camera_for_photo. repeat emits_step.
  destruct a; emits_step.
Qed.

Lemma filter_loop_emits (flickr : FlickrAPI) (camera_model : string) :
  forall photos matching_ids,
    emits not_album (filter_loop flickr camera_model photos matching_ids).
Proof.
  induction photos as [|p photos IH]; intros matching_ids; simpl; [emits_step|].
  destruct (tags_match camera_model p); [apply IH|].
  emits_step; [apply get_camera_emits|].
  destruct (model_matches camera_model a); apply IH.
Qed.

Lemma main_match_emits (fuel : nat) (flickr : FlickrAPI) (a : args) :
  emits not_album (main_match fuel flickr a).
Proof.
  unfold main_match.
  destruct (negb (Str.truthy (api_key a)) || negb (Str.truthy (api_secret a))).
  - unfold print. repeat emits_step.
  - emits_step; [apply authenticate_emits|].
    emits_step; [unfold print; emits_step|].
    emits_step; [apply search_loop_emits|].
    emits_step; [unfold print; emits_step|].
    apply filter_loop_emits.
Qed.

Lemma create_calls_app (t1 t2 : trace) :
  create_calls (t1 ++ t2) = create_calls t1 ++ create_calls t2.
Proof.
  induction t1 as [|ev t1 IH]; simpl; [reflexivity|].
  destruct ev; simpl; now rewrite ?IH.
Qed.

Lemma add_calls_app (t1 t2 : trace) :
  add_calls (t1 ++ t2) = add_calls t1 ++ add_calls t2.
Proof.
  induction t1 as [|ev t1 IH]; simpl; [reflexivity|].
  destruct ev; simpl; now rewrite ?IH.
Qed.

Lemma not_album_calls (t : trace) :
  forallb not_album t = true -> create_calls t = [] /\ add_calls t = [].
Proof.
  induction t as [|ev t IH]; simpl; [now split|].
  intros H. apply andb_true_iff in H as [Hev Ht].
  destruct ev; simpl in *; try discriminate; now apply IH.
Qed.

(** A run of [main] that gets as far as [matching_ids] has made no album
    call up to there. *)
Lemma main_match_no_album_call (fuel : nat) (flickr : FlickrAPI) (a : args)
    (o : outcome (list string)) (h : trace) :
  main_match fuel flickr a [] = (o, h) ->
  create_calls h = [] /\ add_calls h = [].
Proof.
  intros H. destruct (main_match_emits fuel flickr a []) as [d [Hd Hall]].
  rewrite H in Hd. simpl in Hd. subst h. now apply not_album_calls.
Qed.

(** ** Enumeration *)

Lemma page_numbers_cons (first : Z) (count : nat) :
  page_numbers first (S count) = first :: page_numbers (first + 1) count.
Proof.
  unfold page_numbers. cbn [seq map]. rewrite Z.add_0_r. f_equal.
  rewrite <- seq_shift, map_map. apply map_ext. intros i. lia.
Qed.

Lemma page_numbers_length (first : Z) (count : nat) :
  List.length (page_numbers first count) = count.
Proof. unfold page_numbers. now rewrite length_map, length_seq. Qed.

(** From page [page] with [more] pages after it, all reporting [page +
    more] pages in total, the loop fetches each page once and stops. *)
Lemma search_loop_pages (flickr : FlickrAPI) (user extras : string)
    (per_page : Z) (content : Z -> list photo) :
  forall (more : nat) (fuel : nat) (page : Z) (photos : list photo) (h : trace),
    (more < fuel)%nat ->
    (forall h' q,
        page <= q <= page + Z.of_nat more ->
        photos_search flickr h' user extras per_page q
        = Reply (mkSearch (content q) (page + Z.of_nat more))) ->
    exists d,
      search_loop fuel flickr user extras per_page page photos h
      = (Ret (photos ++ List.concat (map content (page_numbers page (S more)))), h ++ d)
      /\ searched_pages d = page_numbers page (S more).
Proof.
  induction more as [|more IH]; intros fuel page photos h Hfuel Hsearch;
    (destruct fuel as [|fuel]; [lia|]);
    rewrite page_numbers_cons; cbn [search_loop map List.concat];
    unfold bind at 1, call; rewrite Hsearch by lia; cbn [photo_list pages].
  - replace (page >=? page + Z.of_nat 0) with true
      by (symmetry; apply Z.geb_le; lia).
    exists [EvSearch user extras per_page page]. unfold ret. simpl.
    now rewrite app_nil_r.
  - replace (page >=? page + Z.of_nat (S more)) with false
      by (symmetry; rewrite Z.geb_leb; apply Z.leb_gt; lia).
    unfold bind at 1, sleep, emit.
    destruct (IH fuel (page + 1) (photos ++ content page)
                ((h ++ [EvSearch user extras per_page page]) ++ [EvSleep 1000]))
      as [d [Hrun Hpages]]; [lia| |].
    + intros h' q Hq. rewrite Hsearch by lia. do 2 f_equal. lia.
    + exists (EvSearch user extras per_page page :: EvSleep 1000 :: d).
      rewrite Hrun. split.
      * f_equal; [now rewrite <- app_assoc | now rewrite <- !app_assoc].
      * simpl. now rewrite Hpages.
Qed.

(** C3: when every page of the search reports the same page count [P >=
    1], the enumerator (given enough fuel for [P] iterations) returns the
    records of pages 1 to [P] concatenated in page order, each page taken
    once, after exactly [P] search calls, for pages 1, 2, ..., [P]. *)
Theorem enumeration_fetches_every_page_once (flickr : FlickrAPI)
    (user extras : string) (per_page : Z) (P : Z) (content : Z -> list photo)
    (fuel : nat) (h : trace) :
  1 <= P ->
  (Z.to_nat P <= fuel)%nat ->
  (forall h' page,
      1 <= page <= P ->
      photos_search flickr h' user extras per_page page
      = Reply (mkSearch (content page) P)) ->
  exists d,
    search_photos_by_user fuel flickr user extras per_page h
    = (Ret (List.concat (map content (page_numbers 1 (Z.to_nat P)))), h ++ d)
    /\ searched_pages d = page_numbers 1 (Z.to_nat P)
    /\ Z.of_nat (List.length (searched_pages d)) = P.
Proof.
  intros HP Hfuel Hsearch.
  destruct (Z.to_nat P) as [|more] eqn:E; [lia|].
  destruct (search_loop_pages flickr user extras per_page content
              more fuel 1 [] h) as [d [Hrun Hpages]]; [lia| |].
  - intros h' q Hq. rewrite Hsearch by lia. do 2 f_equal. lia.
  - exists d. unfold search_photos_by_user. rewrite Hrun, Hpages.
    rewrite page_numbers_length. repeat split. lia.
Qed.

(** Two pages of three and two records: five records, two calls. *)
Lemma enumeration_fetches_every_page_once_witness :
  let flickr := Examples.serving Examples.two_pages (fun _ => Examples.exif_of []) in
  exists d,
    search_photos_by_user 2 flickr "me" "machine_tags" 500 []
    = (Ret [Examples.untagged "1"; Examples.untagged "2"; Examples.untagged "3";
            Examples.untagged "4"; Examples.untagged "5"], [] ++ d)
    /\ searched_pages d = [1; 2]
    /\ Z.of_nat (List.length (searched_pages d)) = 2.
Proof.
  cbv zeta.
  apply (enumeration_fetches_every_page_once
           (Examples.serving Examples.two_pages (fun _ => Examples.exif_of []))
           "me" "machine_tags" 500 2 (Examples.page_of Examples.two_pages) 2 []).
  - lia.
  - simpl. lia.
  - intros h' page Hpage. reflexivity.
Defined.

(** ** Album assembly *)

Lemma main_after_match (fuel : nat) (flickr : FlickrAPI) (a : args)
    (matching_ids : list string) (h : trace) :
  main_match fuel flickr a [] = (Ret matching_ids, h) ->
  main fuel flickr a [] = main_assemble flickr a matching_ids h.
Proof. intros H. unfold main, bind. now rewrite H. Qed.

(** ** Claims about [main] *)

(** C4 as the specification words it fails: the search returns the same
    photo twice, the matcher returns ["A"; "A"], and "A" is both the
    primary photo of the create call and the photo of an add-item call. *)
Lemma create_mode_adds_repeated_primary :
  let flickr := Examples.one_page [Examples.tagged "A" "exif:model=canon";
                                   Examples.tagged "A" "exif:model=canon"] in
  let a := Examples.cli "key" "secret" "Canon" None in
  fst (main_match 1 flickr a []) = Ret ["A"; "A"]
  /\ fst (main 1 flickr a []) = Ret tt
  /\ create_calls (snd (main 1 flickr a [])) = [("Camera photos", "A", "")]
  /\ add_calls (snd (main 1 flickr a [])) = [("72157600000000000", "A")].
Proof. cbv zeta. repeat split; reflexivity. Qed.

(** C6: when the matcher returns no identifier, the run prints the "no
    photos found" message and returns, so the exit status is zero, and
    its trace holds no create-album and no add-item call. *)
Theorem empty_match_set_short_circuits (fuel : nat) (flickr : FlickrAPI)
    (a : args) (h : trace) :
  main_match fuel flickr a [] = (Ret [], h) ->
  main fuel flickr a [] = (Ret tt, h ++ [EvPrint (MsgNoPhotos (camera_model a))])
  /\ exit_status (fst (main fuel flickr a [])) = Some 0
  /\ create_calls (snd (main fuel flickr a [])) = []
  /\ add_calls (snd (main fuel flickr a [])) = [].
Proof.
  intros Hmatch.
  destruct (main_match_no_album_call _ _ _ _ _ Hmatch) as [Hc Ha].
  rewrite (main_after_match _ _ _ _ _ Hmatch). cbn [main_assemble].
  unfold print, emit. cbn [fst snd exit_status].
  rewrite create_calls_app, add_calls_app, Hc, Ha. now repeat split.
Qed.

(** Two photos without machine tags and without EXIF entries: nothing
    matches. *)
Lemma empty_match_set_short_circuits_witness :
  let flickr := Examples.one_page [Examples.untagged "1"; Examples.untagged "2"] in
  let a := Examples.cli "key" "secret" "Canon" None in
  main 1 flickr a []
  = (Ret tt,
     [EvTokenValid "key" "secret" "write";
      EvPrint (MsgSearching "87729121@N00");
      EvSearch "87729121@N00" "machine_tags" 500 1;
      EvPrint (MsgRetrieved 2);
      EvGetExif "1"; EvGetExif "2"] ++ [EvPrint (MsgNoPhotos "Canon")])
  /\ exit_status (fst (main 1 flickr a [])) = Some 0
  /\ create_calls (snd (main 1 flickr a [])) = []
  /\ add_calls (snd (main 1 flickr a [])) = [].
Proof.
  cbv zeta.
  apply (empty_match_set_short_circuits 1
           (Examples.one_page [Examples.untagged "1"; Examples.untagged "2"])
           (Examples.cli "key" "secret" "Canon" None)).
  reflexivity.
Defined.

(** C9: with an empty application key or an empty secret, [main] prints
    the error message and exits with status 1; nothing else is in the
    trace, so no network call was made. *)
Theorem missing_credentials_fail_fast (fuel : nat) (flickr : FlickrAPI) (a : args) :
  api_key a = "" \/ api_secret a = "" ->
  main fuel flickr a [] = (Raise (SystemExit 1), [EvPrint MsgCredentials])
  /\ exit_status (fst (main fuel flickr a [])) = Some 1
  /\ filter is_network_call (snd (main fuel flickr a [])) = [].
Proof.
  intros Hcred.
  assert (Hrun : main fuel flickr a []
                 = (Raise (SystemExit 1), [EvPrint MsgCredentials])).
  { unfold main, main_match.
    replace (negb (Str.truthy (api_key a)) || negb (Str.truthy (api_secret a)))
      with true; [reflexivity|].
    destruct Hcred as [-> | ->]; simpl; [reflexivity | now rewrite orb_true_r]. }
  rewrite Hrun. now repeat split.
Qed.

(** An empty key, and a key with an empty secret. *)
Lemma missing_credentials_fail_fast_witness :
  fst (main 1 Examples.quiet (Examples.cli "" "secret" "Canon" None) [])
  = Raise (SystemExit 1)
  /\ fst (main 1 Examples.quiet (Examples.cli "key" "" "Canon" None) [])
     = Raise (SystemExit 1).
Proof.
  split.
  - refine (f_equal fst (proj1 (missing_credentials_fail_fast 1 Examples.quiet
              (Examples.cli "" "secret" "Canon" None) _))).
    left. reflexivity.
  - refine (f_equal fst (proj1 (missing_credentials_fail_fast 1 Examples.quiet
              (Examples.cli "key" "" "Canon" None) _))).
    right. reflexivity.
Defined.


(** * Beyond the claims *)

(** ** Normalization (line 209) *)

Lemma str_app_assoc (a b c : string) :
  ((a ++ b) ++ c = a ++ (b ++ c))%string.
Proof. induction a as [|x a IH]; simpl; [reflexivity | now rewrite IH]. Qed.

Lemma lower_char_idempotent (c : ascii) :
  Str.lower_char (Str.lower_char c) = Str.lower_char c.
Proof. destruct c as [[] [] [] [] [] [] [] []]; reflexivity. Qed.

(** One character at a time: a character is dropped when its lower-case
    form is a separator, and kept in lower case otherwise. *)
Lemma normalize_cons (c : ascii) (s : string) :
  normalize (String c s)
  = if is_separator (Str.lower_char c) then normalize s
    else String (Str.lower_char c) (normalize s).
Proof.
  unfold normalize, is_separator. cbn [Str.lower Str.remove_char].
  destruct (Ascii.eqb (Str.lower_char c) " ") eqn:E1;
    cbn [Str.remove_char orb]; [reflexivity|].
  destruct (Ascii.eqb (Str.lower_char c) "-") eqn:E2;
    cbn [Str.remove_char orb]; [reflexivity|].
  destruct (Ascii.eqb (Str.lower_char c) "_") eqn:E3;
    cbn [Str.remove_char orb]; reflexivity.
Qed.

Lemma normalize_nil : normalize "" = "".
Proof. reflexivity. Qed.

Lemma remove_char_app (c : ascii) (a b : string) :
  Str.remove_char c (a ++ b)
  = (Str.remove_char c a ++ Str.remove_char c b)%string.
Proof.
  induction a as [|d a IH]; [reflexivity|].
  cbn [String.append Str.remove_char]. rewrite IH.
  now destruct (Ascii.eqb d c).
Qed.

Lemma normalize_is_normal (s : string) :
  all_chars is_normal (normalize s) = true.
Proof.
  induction s as [|c s IH]; [reflexivity|].
  rewrite normalize_cons.
  destruct (is_separator (Str.lower_char c)) eqn:E; [exact IH|].
  cbn [all_chars]. rewrite IH, andb_true_r. unfold is_normal.
  now rewrite lower_char_idempotent, Ascii.eqb_refl, E.
Qed.

Lemma normalize_fixes_normal (s : string) :
  all_chars is_normal s = true -> normalize s = s.
Proof.
  induction s as [|c s IH]; [reflexivity|].
  cbn [all_chars]. intros H. apply andb_true_iff in H as [Hc Hs].
  unfold is_normal in Hc. apply andb_true_iff in Hc as [Hl Hsep].
  apply Ascii.eqb_eq in Hl. rewrite normalize_cons, Hl.
  apply negb_true_iff in Hsep. now rewrite Hsep, IH.
Qed.

Lemma substring_of_trans (a b c : string) :
  substring_of a b -> substring_of b c -> substring_of a c.
Proof.
  intros [b1 [b2 ->]] [c1 [c2 ->]]. exists (c1 ++ b1)%string, (b2 ++ c2)%string.
  now rewrite !str_app_assoc.
Qed.

(** X1: normalizing twice is normalizing once. *)
Theorem normalize_idempotent (s : string) :
  normalize (normalize s) = normalize s.
Proof. apply normalize_fixes_normal, normalize_is_normal. Qed.

(** X2: a normalized string holds no space, hyphen or underscore, and no
    character that [lower] would change; a string of that kind is left
    as it is. *)
Theorem normalize_normal_form (s : string) :
  all_chars (fun c => negb (is_separator c)) (normalize s) = true
  /\ Str.lower (normalize s) = normalize s
  /\ (all_chars is_normal s = true <-> normalize s = s).
Proof.
  pose proof (normalize_is_normal s) as H.
  split; [|split].
  - induction (normalize s) as [|c t IH]; [reflexivity|].
    cbn [all_chars] in *. apply andb_true_iff in H as [Hc Ht].
    unfold is_normal in Hc. apply andb_true_iff in Hc as [_ Hsep].
    now rewrite Hsep, IH.
  - induction (normalize s) as [|c t IH]; [reflexivity|].
    cbn [all_chars Str.lower] in *. apply andb_true_iff in H as [Hc Ht].
    unfold is_normal in Hc. apply andb_true_iff in Hc as [Hl _].
    apply Ascii.eqb_eq in Hl. now rewrite Hl, IH.
  - split; [apply normalize_fixes_normal|]. intros E. now rewrite <- E.
Qed.

(** ** The matcher *)

Lemma tags_match_same_normal (m1 m2 : string) (p : photo) :
  normalize m1 = normalize m2 -> tags_match m1 p = tags_match m2 p.
Proof. intros E. unfold tags_match. now rewrite E. Qed.

Lemma lower_same_normal (m1 m2 : string) :
  same_ignoring_case m1 m2 -> normalize m1 = normalize m2.
Proof. intros E. unfold normalize. now rewrite E. Qed.

Lemma get_camera_trace (flickr : FlickrAPI) (photo : string) (h : trace) :
  snd (get_camera_for_photo flickr photo h) = h ++ [EvGetExif photo].
Proof.
  unfold get_camera_for_photo, bind, try_except_FlickrError, call.
  destruct (photos_getExif flickr h photo) as [exif|[| |code]]; reflexivity.
Qed.

Lemma get_camera_never_out_of_fuel (flickr : FlickrAPI) (photo : string)
    (h : trace) :
  fst (get_camera_for_photo flickr photo h) <> OutOfFuel.
Proof.
  unfold get_camera_for_photo, bind, try_except_FlickrError, call.
  destruct (photos_getExif flickr h photo) as [exif|[| |code]]; discriminate.
Qed.

Lemma scan_tags_at_first (earlier later : list exif_tag) (t : exif_tag) :
  Forall (fun t' => ~ model_entry t') earlier ->
  model_entry t ->
  scan_tags (earlier ++ t :: later) = raw_content (raw t).
Proof.
  intros Hearlier Ht. induction Hearlier as [|t' earlier Hn _ IH]; simpl.
  - apply is_model_tag_iff in Ht. now rewrite Ht.
  - now rewrite (is_model_tag_false _ Hn).
Qed.

(** X3: when the lower-cased machine tags contain the lower-cased form
    of some spelling of the camera model that differs from the model only
    in letter case, spaces, hyphens and underscores (the model itself
    included), the record is a match on the fast path: its identifier is
    appended and no lookup is made. *)
Theorem tags_containing_a_spelling_match (flickr : FlickrAPI)
    (camera_model spelling : string) (p : photo) (tags : string)
    (rest : list photo) (matching_ids : list string) (h : trace) :
  carries_tags p tags ->
  normalize spelling = normalize camera_model ->
  substring_of (Str.lower spelling) (Str.lower tags) ->
  filter_loop flickr camera_model (p :: rest) matching_ids h
  = filter_loop flickr camera_model rest (matching_ids ++ [photo_id p]) h.
Proof.
  intros Hc Hsame [before [after Hsub]]. apply filter_loop_fast.
  rewrite (tags_match_carried _ _ _ Hc). apply str_in_iff.
  rewrite <- Hsame. unfold normalize. rewrite Hsub, !remove_char_app.
  eexists _, _. reflexivity.
Qed.

Lemma tags_containing_a_spelling_match_witness :
  filter_loop Examples.quiet "Canon EOS 7D Mark II"
    [Examples.tagged "1" "Camera:Model=Canon_EOS-7D_Mark-II, exif:iso=100"] [] []
  = (Ret ["1"], []).
Proof.
  apply (tags_containing_a_spelling_match Examples.quiet
           "Canon EOS 7D Mark II" "CANON_eos-7d_mark-ii"
           (Examples.tagged "1" "Camera:Model=Canon_EOS-7D_Mark-II, exif:iso=100")
           "Camera:Model=Canon_EOS-7D_Mark-II, exif:iso=100" [] [] []).
  - split; [reflexivity | discriminate].
  - reflexivity.
  - exists "camera:model=", ", exif:iso=100". reflexivity.
Defined.

(** X4: tag matching is monotone in the camera model: a record that
    matches a model on the fast path also matches every model whose
    normalized form occurs in that model's normalized form (a shorter
    name such as "EOS 7D" matches the tags of an "EOS 7D Mark II"). *)
Theorem tag_match_inherited_by_contained_model (longer shorter : string)
    (p : photo) :
  substring_of (normalize shorter) (normalize longer) ->
  tags_match longer p = true ->
  tags_match shorter p = true.
Proof.
  intros Hsub Hlong. apply tags_match_iff in Hlong as [tags [Hc Hin]].
  apply tags_match_iff. exists tags. split; [exact Hc|].
  eapply substring_of_trans; eassumption.
Qed.

Lemma tag_match_inherited_by_contained_model_witness :
  tags_match "EOS 7D" (Examples.tagged "1" "exif:model=Canon EOS 7D Mark II")
  = true.
Proof.
  apply (tag_match_inherited_by_contained_model "Canon EOS 7D Mark II" "EOS 7D").
  - exists "canon", "markii". reflexivity.
  - reflexivity.
Defined.

(** X5: the matcher does not see the letter case of the camera model:
    two models that are equal up to case give the same run, whatever the
    service and the records. *)
Theorem matcher_ignores_case_of_model (flickr : FlickrAPI)
    (model1 model2 : string) (photos : list photo) (h : trace) :
  same_ignoring_case model1 model2 ->
  filter_photos_by_camera flickr photos model1 h
  = filter_photos_by_camera flickr photos model2 h.
Proof.
  intros Hsame. unfold filter_photos_by_camera. generalize (@nil string).
  revert h. induction photos as [|p photos IH]; intros h ids; [reflexivity|].
  cbn [filter_loop].
  rewrite (tags_match_same_normal model1 model2 p (lower_same_normal _ _ Hsame)).
  destruct (tags_match model2 p); [apply IH|].
  unfold bind. destruct (get_camera_for_photo flickr (photo_id p) h)
    as [[model|e|] h']; try reflexivity.
  replace (model_matches model1 model) with (model_matches model2 model).
  - destruct (model_matches model2 model); apply IH.
  - unfold model_matches. destruct model as [m|]; [|reflexivity].
    unfold same_ignoring_case in Hsame. now rewrite Hsame.
Qed.

Lemma matcher_ignores_case_of_model_witness :
  filter_photos_by_camera Examples.quiet
    [Examples.tagged "1" "exif:model=canon"; Examples.untagged "2"] "CANON" []
  = filter_photos_by_camera Examples.quiet
      [Examples.tagged "1" "exif:model=canon"; Examples.untagged "2"] "canon" [].
Proof.
  apply (matcher_ignores_case_of_model Examples.quiet "CANON" "canon").
  reflexivity.
Defined.

(** X6: the lookup hands back the value of the first entry whose label
    or tag key is "Model": the raw string, or the ['_content'] of a raw
    dict, or [None] when that entry has none, whatever entries follow. *)
Theorem lookup_returns_first_model_value (flickr : FlickrAPI) (photo : string)
    (h : trace) (earlier later : list exif_tag) (t : exif_tag) :
  photos_getExif flickr h photo = Reply (Some (Some (earlier ++ t :: later))) ->
  Forall (fun t' => ~ model_entry t') earlier ->
  model_entry t ->
  get_camera_for_photo flickr photo h
  = (Ret (raw_content (raw t)), h ++ [EvGetExif photo]).
Proof.
  intros Hreply Hearlier Ht. rewrite (get_camera_reply _ _ _ _ Hreply).
  cbn [exif_tags]. now rewrite scan_tags_at_first.
Qed.

Lemma lookup_returns_first_model_value_witness :
  get_camera_for_photo
    (Examples.serving []
       (fun _ => Examples.exif_of
                   [mkExifTag (Some "Make") (Some "Make") (RawDict (Some "Canon"));
                    mkExifTag (Some "MODEL") None RawMissing;
                    Examples.model_entry_of "Canon EOS 7D Mark II"]))
    "1" []
  = (Ret None, [EvGetExif "1"]).
Proof.
  apply (lookup_returns_first_model_value _ "1" []
           [mkExifTag (Some "Make") (Some "Make") (RawDict (Some "Canon"))]
           [Examples.model_entry_of "Canon EOS 7D Mark II"]
           (mkExifTag (Some "MODEL") None RawMissing)).
  - reflexivity.
  - constructor; [|constructor]. intros [H | H]; discriminate H.
  - left. reflexivity.
Defined.

(** X7: a response without a ['photo'] key, or whose ['photo'] has no
    ['exif'] key, or whose entry list is empty, is not an error: the
    lookup returns [None] after its one call. *)
Theorem lookup_of_response_without_entries (flickr : FlickrAPI)
    (photo : string) (h : trace) (exif : exif_response) :
  photos_getExif flickr h photo = Reply exif ->
  exif = None \/ exif = Some None \/ exif = Some (Some []) ->
  get_camera_for_photo flickr photo h = (Ret None, h ++ [EvGetExif photo]).
Proof.
  intros Hreply Hshape. rewrite (get_camera_reply _ _ _ _ Hreply).
  destruct Hshape as [-> | [-> | ->]]; reflexivity.
Qed.

Lemma lookup_of_response_without_entries_witness :
  get_camera_for_photo (Examples.serving [] (fun _ => Reply (Some None))) "1" []
  = (Ret None, [EvGetExif "1"]).
Proof.
  apply (lookup_of_response_without_entries _ "1" [] (Some None)).
  - reflexivity.
  - right. left. reflexivity.
Defined.

(** X8: a lookup failure other than [FlickrError] is not caught: the
    matcher raises it right after that lookup, the identifiers collected
    so far are not returned and the remaining records are not looked at. *)
Theorem lookup_failure_aborts_matcher (flickr : FlickrAPI) (camera_model : string)
    (p : photo) (rest : list photo) (matching_ids : list string) (h : trace)
    (e : exn) :
  no_tag_match camera_model p ->
  photos_getExif flickr h (photo_id p) = Fail e ->
  e <> FlickrError ->
  filter_loop flickr camera_model (p :: rest) matching_ids h
  = (Raise e, h ++ [EvGetExif (photo_id p)]).
Proof.
  intros Hno Hfail He. apply filter_loop_raises.
  - now apply tags_match_false.
  - now apply get_camera_raises.
Qed.

Lemma lookup_failure_aborts_matcher_witness :
  filter_loop
    (Examples.serving [] (fun _ => Fail OtherError))
    "Canon" [Examples.untagged "2"; Examples.tagged "3" "exif:model=canon"]
    ["1"] []
  = (Raise OtherError, [EvGetExif "2"]).
Proof.
  apply (lookup_failure_aborts_matcher
           (Examples.serving [] (fun _ => Fail OtherError)) "Canon"
           (Examples.untagged "2") [Examples.tagged "3" "exif:model=canon"]
           ["1"] [] OtherError).
  - intros tags H. discriminate H.
  - reflexivity.
  - discriminate.
Defined.

Lemma filter_loop_app (flickr : FlickrAPI) (camera_model : string)
    (first second : list photo) :
  forall (matching_ids : list string) (h : trace),
    filter_loop flickr camera_model (first ++ second) matching_ids h
    = bind (filter_loop flickr camera_model first matching_ids)
           (fun ids => filter_loop flickr camera_model second ids) h.
Proof.
  induction first as [|p first IH]; intros matching_ids h; [reflexivity|].
  cbn [app filter_loop].
  destruct (tags_match camera_model p); [apply IH|].
  unfold bind.
  destruct (get_camera_for_photo flickr (photo_id p) h) as [[model|e|] h'];
    try reflexivity.
  destruct (model_matches camera_model model); apply IH.
Qed.

(** X9: the matcher composes over concatenation: running it on two lists
    in a row is running it on the first and then, from the identifiers
    and the trace this leaves, on the second. *)
Theorem matcher_on_concatenation (flickr : FlickrAPI) (camera_model : string)
    (first second : list photo) (h : trace) :
  filter_photos_by_camera flickr (first ++ second) camera_model h
  = match filter_photos_by_camera flickr first camera_model h with
    | (Ret ids, h') => filter_loop flickr camera_model second ids h'
    | (Raise e, h') => (Raise e, h')
    | (OutOfFuel, h') => (OutOfFuel, h')
    end.
Proof. unfold filter_photos_by_camera. now rewrite filter_loop_app. Qed.

Lemma filter_loop_stateless (flickr : FlickrAPI) (camera_model : string) :
  (forall h photo, photos_getExif flickr h photo = photos_getExif flickr [] photo) ->
  (forall photo e, photos_getExif flickr [] photo = Fail e -> e = FlickrError) ->
  forall (photos : list photo) (matching_ids : list string) (h : trace),
    filter_loop flickr camera_model photos matching_ids h
    = (Ret (matching_ids
            ++ map photo_id (filter (record_matches flickr camera_model) photos)),
       h ++ map EvGetExif
              (map photo_id (filter (needs_lookup camera_model) photos))).
Proof.
  intros Hstateless Hcaught.
  induction photos as [|p photos IH]; intros matching_ids h.
  - simpl. unfold ret. now rewrite !app_nil_r.
  - unfold record_matches, needs_lookup in *. cbn [filter].
    destruct (tags_match camera_model p) eqn:Hm; cbn [orb negb].
    + rewrite (filter_loop_fast _ _ _ _ _ _ Hm), IH. cbn [map].
      now rewrite <- app_assoc.
    + assert (Hget := get_camera_returned flickr (photo_id p) h
                        (photos_getExif flickr [] (photo_id p))
                        (Hstateless h (photo_id p)) (Hcaught (photo_id p))).
      rewrite (filter_loop_lookup _ _ _ _ _ _ _ Hm Hget), IH.
      destruct (model_matches camera_model _); cbn [map];
        now rewrite <- !app_assoc.
Qed.

(** X10: against a service whose EXIF replies do not depend on earlier
    calls and that fails with nothing but [FlickrError], the matcher is a
    filter: it returns the identifiers of the records that match on their
    tags or on their looked-up model, in input order, and it has looked up
    exactly the records the fast path did not decide, once each, in input
    order. *)
Theorem matcher_is_a_filter (flickr : FlickrAPI) (camera_model : string)
    (photos : list photo) (h : trace) :
  (forall h' photo,
      photos_getExif flickr h' photo = photos_getExif flickr [] photo) ->
  (forall photo e, photos_getExif flickr [] photo = Fail e -> e = FlickrError) ->
  filter_photos_by_camera flickr photos camera_model h
  = (Ret (map photo_id (filter (record_matches flickr camera_model) photos)),
     h ++ map EvGetExif
            (map photo_id (filter (needs_lookup camera_model) photos))).
Proof.
  intros Hstateless Hcaught. unfold filter_photos_by_camera.
  now rewrite (filter_loop_stateless flickr camera_model Hstateless Hcaught).
Qed.

Lemma matcher_is_a_filter_witness :
  let flickr :=
    Examples.serving []
      (fun id => if (id =? "2")%string then Fail FlickrError
                 else Examples.exif_of [Examples.model_entry_of "canon"]) in
  filter_photos_by_camera flickr
    [Examples.tagged "1" "exif:model=canon"; Examples.untagged "2";
     Examples.tagged "3" "exif:model=nikon"] "Canon" []
  = (Ret ["1"; "3"], [EvGetExif "2"; EvGetExif "3"]).
Proof.
  cbv zeta.
  apply (matcher_is_a_filter
           (Examples.serving []
              (fun id => if (id =? "2")%string then Fail FlickrError
                         else Examples.exif_of [Examples.model_entry_of "canon"]))
           "Canon"
           [Examples.tagged "1" "exif:model=canon"; Examples.untagged "2";
            Examples.tagged "3" "exif:model=nikon"] []).
  - intros h' photo. reflexivity.
  - intros photo e. simpl. destruct (photo =? "2")%string; [|discriminate].
    intros [= <-]. reflexivity.
Defined.

Lemma filter_loop_lookups (flickr : FlickrAPI) (camera_model : string) :
  forall (photos : list photo) (matching_ids : list string) (h : trace),
  exists d,
    snd (filter_loop flickr camera_model photos matching_ids h) = h ++ d
    /\ d = map EvGetExif (lookups d)
    /\ (List.length d <= List.length photos)%nat
    /\ fst (filter_loop flickr camera_model photos matching_ids h) <> OutOfFuel.
Proof.
  induction photos as [|p photos IH]; intros matching_ids h.
  - exists []. simpl. rewrite app_nil_r. repeat split; [lia | discriminate].
  - cbn [filter_loop]. destruct (tags_match camera_model p).
    + destruct (IH (matching_ids ++ [photo_id p]) h) as [d [Hd [Hl [Hn Hf]]]].
      exists d. repeat split; try assumption. simpl. lia.
    + unfold bind.
      pose proof (get_camera_trace flickr (photo_id p) h) as Ht.
      pose proof (get_camera_never_out_of_fuel flickr (photo_id p) h) as Hnf.
      destruct (get_camera_for_photo flickr (photo_id p) h) as [[model|e|] h'];
        simpl in Ht, Hnf; subst h'; [| |contradiction].
      * match goal with
        | |- context [if ?b then _ else _] =>
            destruct b;
            match goal with
            | |- context [filter_loop _ _ photos ?ids ?h1] =>
                destruct (IH ids h1) as [d [Hd [Hl [Hn Hf]]]]
            end
        end;
          (exists (EvGetExif (photo_id p) :: d); rewrite Hd, <- app_assoc;
           repeat split; [simpl; now rewrite <- Hl | simpl; lia | assumption]).
      * exists [EvGetExif (photo_id p)]. simpl.
        repeat split; [lia | discriminate].
Qed.

(** X11: whatever the service does, the matcher adds nothing to the
    trace but metadata lookups, at most one per input record, and it
    either returns or raises: it makes no search, no album call, no sleep
    and no print. *)
Theorem matcher_only_looks_up (flickr : FlickrAPI) (photos : list photo)
    (camera_model : string) (h : trace) :
  exists d,
    snd (filter_photos_by_camera flickr photos camera_model h) = h ++ d
    /\ d = map EvGetExif (lookups d)
    /\ (List.length d <= List.length photos)%nat
    /\ fst (filter_photos_by_camera flickr photos camera_model h) <> OutOfFuel.
Proof. apply filter_loop_lookups. Qed.

(** ** Enumeration *)

Lemma geb_true (a b : Z) : b <= a -> (a >=? b) = true.
Proof. intros H. apply Z.geb_le. exact H. Qed.

Lemma geb_false (a b : Z) : a < b -> (a >=? b) = false.
Proof. intros H. rewrite Z.geb_leb. apply Z.leb_gt. exact H. Qed.

Lemma search_trace_step (user extras : string) (per_page first : Z) (count : nat) :
  search_trace user extras per_page first (S (S count))
  = EvSearch user extras per_page first :: EvSleep 1000
    :: search_trace user extras per_page (first + 1) (S count).
Proof. reflexivity. Qed.

Lemma searched_pages_search_trace (user extras : string) (per_page : Z) :
  forall (count : nat) (first : Z),
    searched_pages (search_trace user extras per_page first count)
    = page_numbers first count
    /\ slept (search_trace user extras per_page first count)
       = 1000 * Z.of_nat (Nat.pred count).
Proof.
  induction count as [|[|count] IH]; intros first.
  - now split.
  - split; [|reflexivity]. rewrite page_numbers_cons. reflexivity.
  - rewrite search_trace_step, page_numbers_cons.
    destruct (IH (first + 1)) as [Hp Hs]. cbn [searched_pages slept].
    rewrite Hp, Hs. split; [reflexivity|]. cbn [Nat.pred]. lia.
Qed.

(** The loop from page [page]: the pages before [page + more] report a
    count above their own number, page [page + more] does not. *)
Lemma search_loop_stops (flickr : FlickrAPI) (user extras : string)
    (per_page : Z) (content : Z -> list photo) (count : Z -> Z) :
  forall (more fuel : nat) (page : Z) (photos : list photo) (h : trace),
    (more < fuel)%nat ->
    (forall h' q,
        page <= q <= page + Z.of_nat more ->
        photos_search flickr h' user extras per_page q
        = Reply (mkSearch (content q) (count q))) ->
    (forall q, page <= q < page + Z.of_nat more -> q < count q) ->
    count (page + Z.of_nat more) <= page + Z.of_nat more ->
    search_loop fuel flickr user extras per_page page photos h
    = (Ret (photos ++ List.concat (map content (page_numbers page (S more)))),
       h ++ search_trace user extras per_page page (S more)).
Proof.
  induction more as [|more IH]; intros fuel page photos h Hfuel Hsearch Hgo Hstop;
    (destruct fuel as [|fuel]; [lia|]);
    rewrite page_numbers_cons; cbn [search_loop map List.concat];
    unfold bind at 1, call; rewrite Hsearch by lia; cbn [photo_list pages].
  - rewrite geb_true by (replace (page + Z.of_nat 0) with page in Hstop by lia; exact Hstop).
    unfold ret. simpl. now rewrite app_nil_r.
  - rewrite geb_false by (apply Hgo; lia).
    unfold bind at 1, sleep, emit.
    rewrite (IH fuel (page + 1)).
    + rewrite search_trace_step. f_equal; now rewrite <- !app_assoc.
    + lia.
    + intros h' q Hq. apply Hsearch. lia.
    + intros q Hq. apply Hgo. lia.
    + replace (page + 1 + Z.of_nat more) with (page + Z.of_nat (S more)) by lia.
      exact Hstop.
Qed.

(** X12: the enumerator stops at the first page whose response reports a
    page count not above that page's number, whatever the earlier pages
    reported; it returns the records of the pages up to there, in order,
    and its trace is one search call per page with a one-second sleep
    between two calls and none after the last.  A first response that
    reports 0 pages (an empty photostream) stops it after one call. *)
Theorem enumeration_stops_at_reported_last_page (flickr : FlickrAPI)
    (user extras : string) (per_page : Z) (content : Z -> list photo)
    (count : Z -> Z) (last : Z) (fuel : nat) (h : trace) :
  1 <= last ->
  (Z.to_nat last <= fuel)%nat ->
  (forall h' page,
      1 <= page <= last ->
      photos_search flickr h' user extras per_page page
      = Reply (mkSearch (content page) (count page))) ->
  (forall page, 1 <= page < last -> page < count page) ->
  count last <= last ->
  search_photos_by_user fuel flickr user extras per_page h
  = (Ret (List.concat (map content (page_numbers 1 (Z.to_nat last)))),
     h ++ search_trace user extras per_page 1 (Z.to_nat last))
  /\ searched_pages (search_trace user extras per_page 1 (Z.to_nat last))
     = page_numbers 1 (Z.to_nat last)
  /\ slept (search_trace user extras per_page 1 (Z.to_nat last))
     = 1000 * (last - 1).
Proof.
  intros Hlast Hfuel Hsearch Hgo Hstop.
  destruct (searched_pages_search_trace user extras per_page (Z.to_nat last) 1)
    as [Hp Hs].
  split; [|split; [exact Hp | rewrite Hs; lia]].
  destruct (Z.to_nat last) as [|more] eqn:E; [lia|].
  unfold search_photos_by_user.
  rewrite (search_loop_stops flickr user extras per_page content count more fuel 1 [] h);
    try reflexivity; try lia.
  - intros h' q Hq. apply Hsearch. lia.
  - intros q Hq. apply Hgo. lia.
  - replace (1 + Z.of_nat more) with last by lia. exact Hstop.
Qed.

(** An empty photostream: the one response reports 0 pages. *)
Lemma enumeration_stops_at_reported_last_page_witness :
  search_photos_by_user 1 (Examples.serving [] (fun _ => Examples.exif_of []))
    "me" "machine_tags" 500 []
  = (Ret [], [EvSearch "me" "machine_tags" 500 1]).
Proof.
  apply (enumeration_stops_at_reported_last_page
           (Examples.serving [] (fun _ => Examples.exif_of []))
           "me" "machine_tags" 500 (fun _ => []) (fun _ => 0) 1 1 []).
  - lia.
  - simpl. lia.
  - intros h' page Hpage. simpl. destruct (Z.to_nat (page - 1)); reflexivity.
  - intros page Hpage. lia.
  - lia.
Defined.

Lemma search_loop_fails (flickr : FlickrAPI) (user extras : string)
    (per_page : Z) (content : Z -> list photo) (count : Z -> Z) (e : exn) :
  forall (more fuel : nat) (page : Z) (photos : list photo) (h : trace),
    (more < fuel)%nat ->
    (forall h' q,
        page <= q < page + Z.of_nat more ->
        photos_search flickr h' user extras per_page q
        = Reply (mkSearch (content q) (count q))) ->
    (forall q, page <= q < page + Z.of_nat more -> q < count q) ->
    (forall h',
        photos_search flickr h' user extras per_page (page + Z.of_nat more)
        = Fail e) ->
    search_loop fuel flickr user extras per_page page photos h
    = (Raise e, h ++ search_trace user extras per_page page (S more)).
Proof.
  induction more as [|more IH]; intros fuel page photos h Hfuel Hsearch Hgo Hfail;
    (destruct fuel as [|fuel]; [lia|]); cbn [search_loop];
    unfold bind at 1, call.
  - replace (page + Z.of_nat 0) with page in Hfail by lia. now rewrite Hfail.
  - rewrite Hsearch by lia. cbn [photo_list pages].
    rewrite geb_false by (apply Hgo; lia).
    unfold bind at 1, sleep, emit.
    rewrite (IH fuel (page + 1)).
    + rewrite search_trace_step. f_equal. now rewrite <- !app_assoc.
    + lia.
    + intros h' q Hq. apply Hsearch. lia.
    + intros q Hq. apply Hgo. lia.
    + intros h'.
      replace (page + 1 + Z.of_nat more) with (page + Z.of_nat (S more)) by lia.
      apply Hfail.
Qed.

(** X13: a search call that fails ends the enumeration with that error:
    when pages 1 to [failing - 1] are served and the call for page
    [failing] fails, the enumerator raises after exactly [failing] search
    calls, and the records of the pages already fetched are not returned. *)
Theorem enumeration_propagates_search_failure (flickr : FlickrAPI)
    (user extras : string) (per_page : Z) (content : Z -> list photo)
    (count : Z -> Z) (failing : Z) (e : exn) (fuel : nat) (h : trace) :
  1 <= failing ->
  (Z.to_nat failing <= fuel)%nat ->
  (forall h' page,
      1 <= page < failing ->
      photos_search flickr h' user extras per_page page
      = Reply (mkSearch (content page) (count page))) ->
  (forall page, 1 <= page < failing -> page < count page) ->
  (forall h', photos_search flickr h' user extras per_page failing = Fail e) ->
  search_photos_by_user fuel flickr user extras per_page h
  = (Raise e, h ++ search_trace user extras per_page 1 (Z.to_nat failing))
  /\ searched_pages (search_trace user extras per_page 1 (Z.to_nat failing))
     = page_numbers 1 (Z.to_nat failing).
Proof.
  intros Hk Hfuel Hsearch Hgo Hfail.
  split; [|apply searched_pages_search_trace].
  destruct (Z.to_nat failing) as [|more] eqn:E; [lia|].
  unfold search_photos_by_user.
  rewrite (search_loop_fails flickr user extras per_page content count e more fuel 1 [] h);
    try reflexivity; try lia.
  - intros h' q Hq. apply Hsearch. lia.
  - intros q Hq. apply Hgo. lia.
  - intros h'. replace (1 + Z.of_nat more) with failing by lia. apply Hfail.
Qed.

Lemma enumeration_propagates_search_failure_witness :
  search_photos_by_user 5 (Services.failing_from 2 OtherError)
    "me" "machine_tags" 500 []
  = (Raise OtherError,
     [EvSearch "me" "machine_tags" 500 1; EvSleep 1000;
      EvSearch "me" "machine_tags" 500 2]).
Proof.
  apply (enumeration_propagates_search_failure
           (Services.failing_from 2 OtherError) "me" "machine_tags" 500
           (fun _ => [Examples.untagged "1"]) (fun _ => 3) 2 OtherError 5 []).
  - lia.
  - simpl. lia.
  - intros h' page Hpage. simpl.
    replace (2 <=? page) with false by (symmetry; apply Z.leb_gt; lia).
    reflexivity.
  - intros page Hpage. lia.
  - intros h'. reflexivity.
Defined.

Lemma search_loop_keeps_going (flickr : FlickrAPI) (user extras : string)
    (per_page : Z) (first : Z) :
  (forall h' page,
      first <= page ->
      exists r,
        photos_search flickr h' user extras per_page page = Reply r
        /\ page < pages r) ->
  forall (fuel : nat) (page : Z) (photos : list photo) (h : trace),
    first <= page ->
    exists d,
      search_loop fuel flickr user extras per_page page photos h
      = (OutOfFuel, h ++ d)
      /\ searched_pages d = page_numbers page fuel.
Proof.
  intros Hmore. induction fuel as [|fuel IH]; intros page photos h Hpage.
  - exists []. simpl. unfold out_of_fuel. now rewrite app_nil_r.
  - destruct (Hmore h page Hpage) as [r [Hr Hlt]].
    cbn [search_loop]. unfold bind at 1, call. rewrite Hr.
    rewrite geb_false by exact Hlt.
    unfold bind at 1, sleep, emit.
    destruct (IH (page + 1) (photos ++ photo_list r)
                ((h ++ [EvSearch user extras per_page page]) ++ [EvSleep 1000]))
      as [d [Hrun Hpages]]; [lia|].
    exists (EvSearch user extras per_page page :: EvSleep 1000 :: d).
    rewrite Hrun, page_numbers_cons. split.
    + f_equal. now rewrite <- !app_assoc.
    + simpl. now rewrite Hpages.
Qed.

(** X14: the loop has no bound of its own: against a service whose every
    response reports a page count above the page asked for, it is still
    fetching after any number of iterations, having asked for pages 1, 2,
    ... in order. *)
Theorem enumeration_does_not_stop_on_its_own (flickr : FlickrAPI)
    (user extras : string) (per_page : Z) (fuel : nat) (h : trace) :
  (forall h' page,
      1 <= page ->
      exists r,
        photos_search flickr h' user extras per_page page = Reply r
        /\ page < pages r) ->
  exists d,
    search_photos_by_user fuel flickr user extras per_page h = (OutOfFuel, h ++ d)
    /\ searched_pages d = page_numbers 1 fuel.
Proof.
  intros Hmore. unfold search_photos_by_user.
  apply (search_loop_keeps_going flickr user extras per_page 1 Hmore). lia.
Qed.

Lemma enumeration_does_not_stop_on_its_own_witness :
  exists d,
    search_photos_by_user 3 Services.growing "me" "machine_tags" 500 []
    = (OutOfFuel, [] ++ d)
    /\ searched_pages d = [1; 2; 3].
Proof.
  apply (enumeration_does_not_stop_on_its_own Services.growing
           "me" "machine_tags" 500 3 []).
  intros h' page Hpage. exists (mkSearch [] (page + 1)). split; [reflexivity|].
  simpl. lia.
Defined.

(** ** Authentication *)

(** X15: [authenticate] first asks whether the stored token is valid and
    opens the browser flow exactly when the answer is [False]; with a
    valid token it returns after that one call, and a failing token check
    is raised without opening the browser. *)
Theorem authenticate_reuses_valid_token (flickr : FlickrAPI)
    (key secret perms : string) (h : trace) :
  exists d,
    snd (authenticate flickr key secret perms h)
    = h ++ EvTokenValid key secret perms :: d
    /\ (d = [] \/ d = [EvAuthBrowser key secret perms])
    /\ (d = [EvAuthBrowser key secret perms]
        <-> token_valid flickr h key secret perms = Reply false)
    /\ (token_valid flickr h key secret perms = Reply true ->
        authenticate flickr key secret perms h
        = (Ret tt, h ++ [EvTokenValid key secret perms]))
    /\ (forall e,
          token_valid flickr h key secret perms = Fail e ->
          authenticate flickr key secret perms h
          = (Raise e, h ++ [EvTokenValid key secret perms])).
Proof.
  unfold authenticate, bind, call.
  destruct (token_valid flickr h key secret perms) as [[|]|e] eqn:E; simpl.
  - exists []. intuition (try discriminate; try congruence).
  - exists [EvAuthBrowser key secret perms].
    destruct (authenticate_via_browser flickr _ key secret perms); simpl;
      rewrite <- app_assoc; intuition (try discriminate; try congruence).
  - exists []. intuition (try discriminate).
    match goal with
    | H : Fail _ = Fail _ |- _ => injection H as <-; reflexivity
    end.
Qed.

Lemma authenticate_reuses_valid_token_witness :
  authenticate Examples.quiet "key" "secret" "write" []
  = (Ret tt, [] ++ [EvTokenValid "key" "secret" "write"]).
Proof.
  destruct (authenticate_reuses_valid_token Examples.quiet
              "key" "secret" "write" []) as [d [_ [_ [_ [Hvalid _]]]]].
  apply Hvalid. reflexivity.
Defined.

(** ** Album calls *)

Lemma add_trace_cons (photoset pid : string) (photo_ids : list string) :
  add_trace photoset (pid :: photo_ids)
  = EvAddPhoto photoset pid :: EvSleep 500 :: add_trace photoset photo_ids.
Proof. reflexivity. Qed.

Lemma add_trace_facts (photoset : string) (photo_ids : list string) :
  add_calls (add_trace photoset photo_ids) = map (pair photoset) photo_ids
  /\ create_calls (add_trace photoset photo_ids) = []
  /\ slept (add_trace photoset photo_ids) = 500 * Z.of_nat (List.length photo_ids).
Proof.
  induction photo_ids as [|pid photo_ids [Ha [Hc Hs]]]; [now repeat split|].
  rewrite add_trace_cons. cbn [add_calls create_calls slept List.length map].
  rewrite Ha, Hc, Hs. repeat split. lia.
Qed.

Lemma add_photos_along (flickr : FlickrAPI) (photoset : string) :
  forall (photo_ids : list string) (h : trace),
    (forall before pid after,
        photo_ids = before ++ pid :: after ->
        photosets_addPhoto flickr (h ++ add_trace photoset before) photoset pid
        = Reply tt) ->
    add_photos_to_photoset flickr photoset photo_ids h
    = (Ret tt, h ++ add_trace photoset photo_ids).
Proof.
  induction photo_ids as [|pid photo_ids IH]; intros h Hadd.
  - simpl. unfold ret. now rewrite app_nil_r.
  - cbn [add_photos_to_photoset]. unfold bind at 1, call.
    pose proof (Hadd [] pid photo_ids eq_refl) as H0.
    cbn [add_trace flat_map] in H0. rewrite app_nil_r in H0. rewrite H0.
    unfold bind at 1, sleep, emit. rewrite IH.
    + rewrite add_trace_cons. now rewrite <- !app_assoc.
    + intros before x after E.
      specialize (Hadd (pid :: before) x after). rewrite add_trace_cons in Hadd.
      rewrite <- !app_assoc. apply Hadd. now rewrite E.
Qed.

Lemma add_photos_stops (flickr : FlickrAPI) (photoset : string)
    (pid : string) (after : list string) (e : exn) :
  forall (before : list string) (h : trace),
    (forall before' x after',
        before = before' ++ x :: after' ->
        photosets_addPhoto flickr (h ++ add_trace photoset before') photoset x
        = Reply tt) ->
    photosets_addPhoto flickr (h ++ add_trace photoset before) photoset pid
    = Fail e ->
    add_photos_to_photoset flickr photoset (before ++ pid :: after) h
    = (Raise e, h ++ add_trace photoset before ++ [EvAddPhoto photoset pid]).
Proof.
  induction before as [|x before IH]; intros h Hadd Hfail.
  - cbn [app add_photos_to_photoset]. unfold bind at 1, call.
    cbn [add_trace flat_map] in Hfail. rewrite app_nil_r in Hfail.
    now rewrite Hfail.
  - cbn [app add_photos_to_photoset]. unfold bind at 1, call.
    pose proof (Hadd [] x before eq_refl) as H0.
    cbn [add_trace flat_map] in H0. rewrite app_nil_r in H0. rewrite H0.
    unfold bind at 1, sleep, emit. rewrite IH.
    + rewrite add_trace_cons. now rewrite <- !app_assoc.
    + intros before' y after' E.
      specialize (Hadd (x :: before') y after'). rewrite add_trace_cons in Hadd.
      rewrite <- !app_assoc. apply Hadd. now rewrite E.
    + rewrite add_trace_cons in Hfail. now rewrite <- !app_assoc.
Qed.

(** X16: when each add-item call succeeds at the moment it is made,
    [add_photos_to_photoset] makes one call per identifier, in order, all
    on the given album, and sleeps half a second after every call, the
    last included. *)
Theorem additions_one_call_and_one_sleep_each (flickr : FlickrAPI)
    (photoset : string) (photo_ids : list string) (h : trace) :
  (forall before pid after,
      photo_ids = before ++ pid :: after ->
      photosets_addPhoto flickr (h ++ add_trace photoset before) photoset pid
      = Reply tt) ->
  add_photos_to_photoset flickr photoset photo_ids h
  = (Ret tt, h ++ add_trace photoset photo_ids)
  /\ add_calls (add_trace photoset photo_ids) = map (pair photoset) photo_ids
  /\ slept (add_trace photoset photo_ids)
     = 500 * Z.of_nat (List.length photo_ids).
Proof.
  intros Hadd. destruct (add_trace_facts photoset photo_ids) as [Ha [_ Hs]].
  split; [now apply add_photos_along | now split].
Qed.

Lemma additions_one_call_and_one_sleep_each_witness :
  add_photos_to_photoset Examples.quiet "77" ["A"; "B"] []
  = (Ret tt,
     [] ++ [EvAddPhoto "77" "A"; EvSleep 500; EvAddPhoto "77" "B"; EvSleep 500]).
Proof.
  apply (additions_one_call_and_one_sleep_each Examples.quiet "77" ["A"; "B"] []).
  intros before pid after E. reflexivity.
Defined.

(** X17: the first add-item call that fails ends the additions: the
    error is raised, the identifiers after the failing one are not
    submitted, those before it stay added, and no sleep follows the
    failing call. *)
Theorem failed_addition_stops_the_rest (flickr : FlickrAPI) (photoset : string)
    (before : list string) (pid : string) (after : list string) (e : exn)
    (h : trace) :
  (forall before' x after',
      before = before' ++ x :: after' ->
      photosets_addPhoto flickr (h ++ add_trace photoset before') photoset x
      = Reply tt) ->
  photosets_addPhoto flickr (h ++ add_trace photoset before) photoset pid
  = Fail e ->
  add_photos_to_photoset flickr photoset (before ++ pid :: after) h
  = (Raise e, h ++ add_trace photoset before ++ [EvAddPhoto photoset pid])
  /\ add_calls (add_trace photoset before ++ [EvAddPhoto photoset pid])
     = map (pair photoset) (before ++ [pid]).
Proof.
  intros Hadd Hfail. split; [now apply add_photos_stops|].
  destruct (add_trace_facts photoset before) as [Ha _].
  now rewrite add_calls_app, Ha, map_app.
Qed.

(** "A" is added twice to an album that refuses a photo it holds. *)
Lemma failed_addition_stops_the_rest_witness :
  add_photos_to_photoset (Services.strict_album []) "77" ["B"; "A"; "A"; "C"] []
  = (Raise FlickrError,
     [] ++ [EvAddPhoto "77" "B"; EvSleep 500; EvAddPhoto "77" "A"; EvSleep 500]
        ++ [EvAddPhoto "77" "A"]).
Proof.
  apply (failed_addition_stops_the_rest (Services.strict_album []) "77"
           ["B"; "A"] "A" ["C"] FlickrError []).
  - intros [|b1 [|b2 before']] x after' E; simpl in E.
    + injection E as <- _. reflexivity.
    + injection E as <- <- _. reflexivity.
    + destruct before'; discriminate E.
  - reflexivity.
Defined.

(** ** Whole runs *)

Lemma main_raises_with_match (fuel : nat) (flickr : FlickrAPI) (a : args)
    (e : exn) (h : trace) :
  main_match fuel flickr a [] = (Raise e, h) ->
  main fuel flickr a [] = (Raise e, h).
Proof. intros H. unfold main, bind. now rewrite H. Qed.

(** X18: when anything before the assembly raises (the token check, the
    browser flow, a search call, a lookup failure that is not caught),
    [main] raises the same error and the run has made no create-album and
    no add-item call. *)
Theorem failure_before_assembly_touches_no_album (fuel : nat)
    (flickr : FlickrAPI) (a : args) (e : exn) (h : trace) :
  main_match fuel flickr a [] = (Raise e, h) ->
  main fuel flickr a [] = (Raise e, h)
  /\ create_calls h = []
  /\ add_calls h = [].
Proof.
  intros H. split; [now apply main_raises_with_match|].
  exact (main_match_no_album_call _ _ _ _ _ H).
Qed.

(** The search fails on its second page. *)
Lemma failure_before_assembly_touches_no_album_witness :
  main 5 (Services.failing_from 2 FlickrError)
    (Examples.cli "key" "secret" "Canon" None) []
  = (Raise FlickrError,
     [EvTokenValid "key" "secret" "write";
      EvPrint (MsgSearching "87729121@N00");
      EvSearch "87729121@N00" "machine_tags" 500 1; EvSleep 1000;
      EvSearch "87729121@N00" "machine_tags" 500 2]).
Proof.
  apply (failure_before_assembly_touches_no_album 5
           (Services.failing_from 2 FlickrError)
           (Examples.cli "key" "secret" "Canon" None) FlickrError).
  reflexivity.
Defined.

(** Create mode up to the create call. *)
Lemma main_assemble_create_call (flickr : FlickrAPI) (a : args)
    (primary : string) (rest : list string) (h : trace) :
  photoset_id a = None \/ photoset_id a = Some "" ->
  main_assemble flickr a (primary :: rest) h
  = let h1 := h ++ [EvPrint (MsgFound (S (List.length rest)) (camera_model a));
                    EvPrint (MsgCreating (album_title a))] in
    let created := EvCreate (album_title a) primary (album_desc a) in
    match photosets_create flickr h1 (album_title a) primary (album_desc a) with
    | Fail e => (Raise e, h1 ++ [created])
    | Reply photoset =>
        bind (match rest with
              | [] => ret tt
              | _ :: _ => add_photos_to_photoset flickr photoset rest
              end)
             (fun _ => print MsgAllAdded)
             (h1 ++ [created; EvPrint (MsgCreated photoset)])
    end.
Proof.
  intros Hset. unfold main_assemble.
  replace (Str.truthy (Str.get_str (photoset_id a))) with false
    by (destruct Hset as [-> | ->]; reflexivity).
  unfold bind at 1, print at 1, emit. unfold bind at 1, print at 1, emit.
  unfold bind at 1, create_photoset, call. cbv zeta. cbn [List.length].
  rewrite <- !app_assoc. cbn [app].
  destruct (photosets_create flickr _ (album_title a) primary (album_desc a));
    [|reflexivity].
  unfold bind at 1, print at 1, emit. now rewrite <- !app_assoc.
Qed.

(** X19: in create mode, when the create-album call fails, [main] raises
    that error right after the call: no add-item call is made and the
    "created" message is not printed. *)
Theorem failed_create_adds_nothing (fuel : nat) (flickr : FlickrAPI) (a : args)
    (primary : string) (rest : list string) (e : exn) (h : trace) :
  photoset_id a = None \/ photoset_id a = Some "" ->
  main_match fuel flickr a [] = (Ret (primary :: rest), h) ->
  photosets_create flickr
    (h ++ [EvPrint (MsgFound (S (List.length rest)) (camera_model a));
           EvPrint (MsgCreating (album_title a))])
    (album_title a) primary (album_desc a)
  = Fail e ->
  main fuel flickr a []
  = (Raise e,
     h ++ [EvPrint (MsgFound (S (List.length rest)) (camera_model a));
           EvPrint (MsgCreating (album_title a));
           EvCreate (album_title a) primary (album_desc a)])
  /\ add_calls (snd (main fuel flickr a [])) = [].
Proof.
  intros Hset Hmatch Hfail.
  destruct (main_match_no_album_call _ _ _ _ _ Hmatch) as [_ Ha].
  rewrite (main_after_match _ _ _ _ _ Hmatch).
  rewrite (main_assemble_create_call _ _ _ _ _ Hset). cbv zeta.
  rewrite Hfail, <- app_assoc. cbn [app snd]. split; [reflexivity|].
  now rewrite add_calls_app, Ha.
Qed.

Lemma failed_create_adds_nothing_witness :
  add_calls
    (snd (main 1
            (Services.no_create [Examples.tagged "A" "exif:model=canon";
                                 Examples.tagged "B" "exif:model=canon"]
               FlickrError)
            (Examples.cli "key" "secret" "Canon" None) []))
  = [].
Proof.
  eapply (failed_create_adds_nothing 1
            (Services.no_create [Examples.tagged "A" "exif:model=canon";
                                 Examples.tagged "B" "exif:model=canon"]
               FlickrError)
            (Examples.cli "key" "secret" "Canon" None) "A" ["B"] FlickrError).
  - left. reflexivity.
  - reflexivity.
  - reflexivity.
Defined.

Lemma holds_app (photo : string) (h1 h2 : trace) :
  Services.holds photo (h1 ++ h2)
  = Services.holds photo h1 || Services.holds photo h2.
Proof.
  induction h1 as [|ev h1 IH]; [reflexivity|].
  destruct ev; cbn [app Services.holds]; rewrite IH;
    try reflexivity; now rewrite orb_assoc.
Qed.

(** X20: in create mode on an album that refuses a photo it already
    holds, a matched list that repeats its first identifier ends the run
    with [FlickrError] at the repeated identifier: the identifiers before
    it are added, those after it never are. *)
Theorem repeated_primary_ends_in_service_error (fuel : nat) (flickr : FlickrAPI)
    (a : args) (photoset primary : string) (before after : list string)
    (h : trace) :
  (forall h' album photo,
      Services.holds photo h' = true ->
      photosets_addPhoto flickr h' album photo = Fail FlickrError) ->
  (forall h' album photo,
      Services.holds photo h' = false ->
      photosets_addPhoto flickr h' album photo = Reply tt) ->
  photoset_id a = None \/ photoset_id a = Some "" ->
  main_match fuel flickr a [] = (Ret (primary :: before ++ primary :: after), h) ->
  (forall h',
      photosets_create flickr h' (album_title a) primary (album_desc a)
      = Reply photoset) ->
  NoDup (primary :: before) ->
  fst (main fuel flickr a []) = Raise FlickrError
  /\ create_calls (snd (main fuel flickr a []))
     = [(album_title a, primary, album_desc a)]
  /\ add_calls (snd (main fuel flickr a []))
     = map (pair photoset) (before ++ [primary]).
Proof.
  intros Hrefuse Haccept Hset Hmatch Hcreate Hnodup.
  destruct (main_match_no_album_call _ _ _ _ _ Hmatch) as [Hc Ha].
  assert (Hheld : forall t, create_calls t = [] -> add_calls t = [] ->
                            forall photo, Services.holds photo t = false).
  { induction t as [|ev t IH]; [reflexivity|].
    destruct ev; cbn [create_calls add_calls Services.holds]; try discriminate;
      intros; now apply IH. }
  assert (Htrace : forall photo ids,
             Services.holds photo (add_trace photoset ids)
             = existsb (fun x => (x =? photo)%string) ids).
  { intros photo ids. induction ids as [|x ids IH]; [reflexivity|].
    rewrite add_trace_cons. cbn [Services.holds existsb]. now rewrite IH. }
  assert (Hrun : exists h1,
             create_calls h1 = [(album_title a, primary, album_desc a)]
             /\ add_calls h1 = []
             /\ main fuel flickr a []
                = (Raise FlickrError,
                   h1 ++ add_trace photoset before ++ [EvAddPhoto photoset primary])).
  { eexists. split; [|split].
    3: { rewrite (main_after_match _ _ _ _ _ Hmatch).
         rewrite (main_assemble_create_call _ _ _ _ _ Hset). cbv zeta.
         rewrite Hcreate.
         replace (match before ++ primary :: after with
                  | [] => ret tt
                  | _ :: _ => add_photos_to_photoset flickr photoset
                                (before ++ primary :: after)
                  end)
           with (add_photos_to_photoset flickr photoset
                   (before ++ primary :: after))
           by (destruct before; reflexivity).
         unfold bind at 1.
         rewrite (add_photos_stops flickr photoset primary after FlickrError
                    before _); [reflexivity| |].
         - intros before' x after' E. apply Haccept.
           rewrite !holds_app, (Hheld h Hc Ha). cbn [Services.holds orb].
           rewrite Htrace.
           assert (Hx : x <> primary).
           { intros ->. inversion Hnodup as [|? ? Hnotin _]. apply Hnotin.
             rewrite E. apply in_or_app. right. now left. }
           apply String.eqb_neq in Hx. rewrite String.eqb_sym, Hx. cbn [orb].
           destruct (existsb _ before') eqn:Ex; [|reflexivity].
           apply existsb_exists in Ex as [y [Hy Hxy]].
           apply String.eqb_eq in Hxy. subst y. exfalso.
           inversion Hnodup as [|? ? _ Hnd].
           rewrite E in Hnd. apply NoDup_remove_2 in Hnd. apply Hnd.
           apply in_or_app. now left.
         - apply Hrefuse. rewrite !holds_app. cbn [Services.holds].
           rewrite String.eqb_refl. now rewrite !orb_true_r. }
    - rewrite !create_calls_app, Hc. reflexivity.
    - rewrite !add_calls_app, Ha. reflexivity. }
  destruct Hrun as [h1 [Hc1 [Ha1 Hrun]]]. rewrite Hrun. cbn [fst snd].
  destruct (add_trace_facts photoset before) as [Hadds [Hcreates _]].
  rewrite !create_calls_app, !add_calls_app, Hc1, Ha1, Hadds, Hcreates.
  cbn [create_calls add_calls app]. rewrite map_app. now repeat split.
Qed.

Lemma repeated_primary_ends_in_service_error_witness :
  let flickr :=
    Services.strict_album [Examples.tagged "A" "exif:model=canon";
                           Examples.tagged "B" "exif:model=canon";
                           Examples.tagged "A" "exif:model=canon";
                           Examples.tagged "C" "exif:model=canon"] in
  let a := Examples.cli "key" "secret" "Canon" None in
  fst (main 1 flickr a []) = Raise FlickrError
  /\ create_calls (snd (main 1 flickr a [])) = [("Camera photos", "A", "")]
  /\ add_calls (snd (main 1 flickr a []))
     = [("72157600000000000", "B"); ("72157600000000000", "A")].
Proof.
  cbv zeta.
  eapply (repeated_primary_ends_in_service_error 1
            (Services.strict_album [Examples.tagged "A" "exif:model=canon";
                                    Examples.tagged "B" "exif:model=canon";
                                    Examples.tagged "A" "exif:model=canon";
                                    Examples.tagged "C" "exif:model=canon"])
            (Examples.cli "key" "secret" "Canon" None)
            "72157600000000000" "A" ["B"] ["C"]).
  - intros h' album photo H. simpl. now rewrite H.
  - intros h' album photo H. simpl. now rewrite H.
  - left. reflexivity.
  - reflexivity.
  - intros h'. reflexivity.
  - repeat constructor; simpl; intuition discriminate.
Defined.

(** ** The order of the calls *)

Lemma empty_parts (kinds : list (event -> bool)) :
  List.concat (map (fun _ => @nil event) kinds) = []
  /\ Forall2 (fun kind part => forallb (only kind) part = true)
       kinds (map (fun _ => []) kinds).
Proof.
  induction kinds as [|kind kinds [Hc Hf]]; simpl; [now split|].
  split; [exact Hc | now constructor].
Qed.

Lemma in_phases_one {A} (kind : event -> bool) (m : M A) :
  emits (only kind) m -> in_phases [kind] m.
Proof.
  intros Hm h. destruct (Hm h) as [d [Hd Hall]]. exists [d]. simpl.
  rewrite app_nil_r. split; [exact Hd | now repeat constructor].
Qed.

Lemma in_phases_extend {A} (kinds more : list (event -> bool)) (m : M A) :
  in_phases kinds m -> in_phases (kinds ++ more) m.
Proof.
  intros Hm h. destruct (Hm h) as [parts [Hd Hall]].
  destruct (empty_parts more) as [Hc Hf].
  exists (parts ++ map (fun _ => []) more). split.
  - now rewrite concat_app, Hc, app_nil_r.
  - now apply Forall2_app.
Qed.

Lemma in_phases_bind {A B} (kinds1 kinds2 : list (event -> bool))
    (m : M A) (k : A -> M B) :
  in_phases kinds1 m -> (forall a, in_phases kinds2 (k a)) ->
  in_phases (kinds1 ++ kinds2) (bind m k).
Proof.
  intros Hm Hk h. destruct (Hm h) as [parts1 [Hd1 Hall1]]. unfold bind.
  destruct (empty_parts kinds2) as [Hc Hf].
  destruct (m h) as [[a|e|] h']; simpl in Hd1; subst h'.
  - destruct (Hk a (h ++ List.concat parts1)) as [parts2 [Hd2 Hall2]].
    exists (parts1 ++ parts2). split.
    + now rewrite Hd2, concat_app, app_assoc.
    + now apply Forall2_app.
  - exists (parts1 ++ map (fun _ => []) kinds2). simpl. split.
    + now rewrite concat_app, Hc, app_nil_r.
    + now apply Forall2_app.
  - exists (parts1 ++ map (fun _ => []) kinds2). simpl. split.
    + now rewrite concat_app, Hc, app_nil_r.
    + now apply Forall2_app.
Qed.

(** Events of the first kind made before a phased computation join its
    first part. *)
Lemma in_phases_absorb {A B} (kind : event -> bool)
    (kinds : list (event -> bool)) (m : M A) (k : A -> M B) :
  emits (only kind) m -> (forall a, in_phases (kind :: kinds) (k a)) ->
  in_phases (kind :: kinds) (bind m k).
Proof.
  intros Hm Hk h. destruct (Hm h) as [d [Hd Hall]]. unfold bind.
  destruct (empty_parts kinds) as [Hc Hf].
  destruct (m h) as [[a|e|] h']; simpl in Hd; subst h'.
  - destruct (Hk a (h ++ d)) as [parts [Hd2 Hall2]].
    inversion Hall2 as [|? part ? parts' Hpart Hparts]; subst.
    exists ((d ++ part) :: parts'). split.
    + rewrite Hd2. simpl. now rewrite !app_assoc.
    + constructor; [|exact Hparts]. now rewrite forallb_app, Hall, Hpart.
  - exists (d :: map (fun _ => []) kinds). simpl. split.
    + now rewrite Hc, app_nil_r.
    + now constructor.
  - exists (d :: map (fun _ => []) kinds). simpl. split.
    + now rewrite Hc, app_nil_r.
    + now constructor.
Qed.

Lemma authenticate_only_auth (flickr : FlickrAPI) (key secret perms : string) :
  emits (only is_auth_call) (authenticate flickr key secret perms).
Proof.
  unfold authenticate. emits_step; [emits_step|].
  destruct (negb a); emits_step.
Qed.

Lemma search_loop_only_search (flickr : FlickrAPI) (user extras : string)
    (per_page : Z) :
  forall fuel page photos,
    emits (only is_search_call)
      (search_loop fuel flickr user extras per_page page photos).
Proof.
  induction fuel as [|fuel IH]; intros page photos; simpl; [emits_step|].
  emits_step; [emits_step|].
  destruct (page >=? pages a); [emits_step|].
  emits_step; [unfold sleep; emits_step | apply IH].
Qed.

Lemma filter_loop_only_lookup (flickr : FlickrAPI) (camera_model : string) :
  forall photos matching_ids,
    emits (only is_lookup_call)
      (filter_loop flickr camera_model photos matching_ids).
Proof.
  induction photos as [|p photos IH]; intros matching_ids; simpl; [emits_step|].
  destruct (tags_match camera_model p); [apply IH|].
  emits_step.
  - unfold get_camera_for_photo. repeat emits_step. destruct a; emits_step.
  - destruct (model_matches camera_model a); apply IH.
Qed.

Lemma add_photos_only_album (flickr : FlickrAPI) (photoset : string) :
  forall photo_ids,
    emits (only is_album_call) (add_photos_to_photoset flickr photoset photo_ids).
Proof.
  induction photo_ids as [|pid photo_ids IH]; simpl; [emits_step|].
  emits_step; [emits_step|]. emits_step; [unfold sleep; emits_step | apply IH].
Qed.

Lemma main_assemble_only_album (flickr : FlickrAPI) (a : args)
    (matching_ids : list string) :
  emits (only is_album_call) (main_assemble flickr a matching_ids).
Proof.
  unfold main_assemble, print, create_photoset.
  destruct matching_ids as [|primary rest]; [emits_step|].
  emits_step; [emits_step|].
  destruct (Str.truthy (Str.get_str (photoset_id a))).
  - emits_step; [emits_step|]. emits_step; [apply add_photos_only_album|].
    emits_step.
  - emits_step; [emits_step|]. emits_step; [emits_step|].
    emits_step; [emits_step|]. emits_step; [|emits_step].
    destruct rest; [emits_step | apply add_photos_only_album].
Qed.

(** X21: the network calls of any run of [main] come in four consecutive
    phases, whatever the service answers and however the run ends:
    authentication calls, then search calls, then metadata lookups, then
    album calls; only sleeps and prints are interleaved. *)
Theorem main_calls_come_in_phases (fuel : nat) (flickr : FlickrAPI) (a : args) :
  exists authentication searches metadata album,
    snd (main fuel flickr a []) = authentication ++ searches ++ metadata ++ album
    /\ forallb (only is_auth_call) authentication = true
    /\ forallb (only is_search_call) searches = true
    /\ forallb (only is_lookup_call) metadata = true
    /\ forallb (only is_album_call) album = true.
Proof.
  assert (H : in_phases [is_auth_call; is_search_call; is_lookup_call; is_album_call]
                (main fuel flickr a)).
  { unfold main.
    apply (in_phases_bind [is_auth_call; is_search_call; is_lookup_call]
             [is_album_call]).
    - unfold main_match.
      destruct (negb (Str.truthy (api_key a)) || negb (Str.truthy (api_secret a))).
      + apply (in_phases_extend [is_auth_call] [is_search_call; is_lookup_call]).
        apply in_phases_one. unfold print. repeat emits_step.
      + apply in_phases_absorb; [apply authenticate_only_auth | intros _].
        apply (in_phases_bind [is_auth_call] [is_search_call; is_lookup_call]).
        * apply in_phases_one. unfold print. emits_step.
        * intros _.
          apply (in_phases_bind [is_search_call] [is_lookup_call]).
          -- apply in_phases_one. apply search_loop_only_search.
          -- intros photos. apply in_phases_one.
             emits_step; [unfold print; emits_step|].
             apply filter_loop_only_lookup.
    - intros ids. apply in_phases_one. apply main_assemble_only_album. }
  destruct (H []) as [parts [Hd Hall]].
  inversion Hall as [|? p1 ? l1 H1 Hall1]; subst.
  inversion Hall1 as [|? p2 ? l2 H2 Hall2]; subst.
  inversion Hall2 as [|? p3 ? l3 H3 Hall3]; subst.
  inversion Hall3 as [|? p4 ? l4 H4 Hall4]; subst.
  inversion Hall4; subst.
  exists p1, p2, p3, p4. simpl in Hd. rewrite app_nil_r in Hd.
  now repeat split.
Qed.

(** ** What a run asks for *)

Lemma expected_search_loop (flickr : FlickrAPI) (a : args) :
  forall fuel page photos,
    1 <= page ->
    emits (expected_call a)
      (search_loop fuel flickr (user_id a) "machine_tags" 500 page photos).
Proof.
  induction fuel as [|fuel IH]; intros page photos Hpage; simpl; [emits_step|].
  emits_step.
  - apply emits_call. cbn [expected_call].
    rewrite !String.eqb_refl. apply Z.leb_le in Hpage. now rewrite Hpage.
  - destruct (page >=? pages a0); [emits_step|].
    emits_step; [unfold sleep; emits_step | apply IH; lia].
Qed.

Lemma expected_add_photos (flickr : FlickrAPI) (a : args) (photoset : string) :
  forall photo_ids,
    emits (expected_call a) (add_photos_to_photoset flickr photoset photo_ids).
Proof.
  induction photo_ids as [|pid photo_ids IH]; simpl; [emits_step|].
  emits_step; [emits_step|]. emits_step; [unfold sleep; emits_step | apply IH].
Qed.

Lemma expected_filter_loop (flickr : FlickrAPI) (a : args) (camera_model : string) :
  forall photos matching_ids,
    emits (expected_call a) (filter_loop flickr camera_model photos matching_ids).
Proof.
  induction photos as [|p photos IH]; intros matching_ids; simpl; [emits_step|].
  destruct (tags_match camera_model p); [apply IH|].
  emits_step.
  - unfold get_camera_for_photo. repeat emits_step. destruct a0; emits_step.
  - destruct (model_matches camera_model a0); apply IH.
Qed.

(** X22: every run of [main] only makes the calls its arguments name: the
    token check and the browser flow use the given key and secret and ask
    for ['write'] permission; every search is for the given user, with the
    [machine_tags] extra, 500 records per page and a page number from 1
    on; every create call carries the given title and description; every
    sleep lasts one second or half a second. *)
Theorem main_makes_only_expected_calls (fuel : nat) (flickr : FlickrAPI)
    (a : args) :
  forallb (expected_call a) (snd (main fuel flickr a [])) = true.
Proof.
  assert (H : emits (expected_call a) (main fuel flickr a)).
  { unfold main. apply emits_bind.
    - unfold main_match, print.
      destruct (negb (Str.truthy (api_key a)) || negb (Str.truthy (api_secret a)));
        [repeat emits_step|].
      emits_step.
      + unfold authenticate. apply emits_bind.
        * apply emits_call. cbn [expected_call]. now rewrite !String.eqb_refl.
        * intros valid. destruct (negb valid); [|emits_step].
          apply emits_call. cbn [expected_call]. now rewrite !String.eqb_refl.
      + emits_step; [emits_step|]. emits_step.
        * apply expected_search_loop. lia.
        * emits_step; [emits_step|]. apply expected_filter_loop.
    - intros ids. unfold main_assemble, print, create_photoset.
      destruct ids as [|primary rest]; [emits_step|].
      emits_step; [emits_step|].
      destruct (Str.truthy (Str.get_str (photoset_id a))).
      + emits_step; [emits_step|]. emits_step; [apply expected_add_photos|].
        emits_step.
      + emits_step; [emits_step|]. apply emits_bind.
        * apply emits_call. cbn [expected_call]. now rewrite !String.eqb_refl.
        * intros photoset. emits_step; [emits_step|]. emits_step; [|emits_step].
          destruct rest; [emits_step | apply expected_add_photos]. }
  destruct (H []) as [d [Hd Hall]]. now rewrite Hd.
Qed.

(** ** Where the album's photos come from *)

Lemma bind_ret_inv {A B} (m : M A) (k : A -> M B) (h h' : trace) (b : B) :
  bind m k h = (Ret b, h') ->
  exists a h1, m h = (Ret a, h1) /\ k a h1 = (Ret b, h').
Proof.
  unfold bind. destruct (m h) as [[a|e|] h1]; try discriminate.
  intros H. now exists a, h1.
Qed.

Lemma search_loop_from_responses (flickr : FlickrAPI) (user extras : string)
    (per_page : Z) :
  forall fuel page photos h result h',
    search_loop fuel flickr user extras per_page page photos h = (Ret result, h') ->
    forall p,
      In p result ->
      In p photos
      \/ exists h1 q r,
          photos_search flickr h1 user extras per_page q = Reply r
          /\ In p (photo_list r).
Proof.
  induction fuel as [|fuel IH]; intros page photos h result h' Hrun p Hin;
    [discriminate|].
  cbn [search_loop] in Hrun. apply bind_ret_inv in Hrun as [r [h1 [Hcall Hrest]]].
  unfold call in Hcall.
  destruct (photos_search flickr h user extras per_page page) as [r'|e] eqn:Hr;
    [|discriminate].
  injection Hcall as <- <-.
  assert (Hsplit : In p (photos ++ photo_list r') ->
                   In p photos
                   \/ exists h1 q r,
                       photos_search flickr h1 user extras per_page q = Reply r
                       /\ In p (photo_list r)).
  { intros H. apply in_app_or in H as [H | H]; [now left | right].
    now exists h, page, r'. }
  destruct (page >=? pages r').
  - injection Hrest as <- _. now apply Hsplit.
  - apply bind_ret_inv in Hrest as [u [h2 [_ Hloop]]].
    destruct (IH _ _ _ _ _ Hloop p Hin) as [H | H]; [now apply Hsplit | now right].
Qed.

Lemma filter_loop_ids_subset (flickr : FlickrAPI) (camera_model : string) :
  forall photos matching_ids h ids h',
    filter_loop flickr camera_model photos matching_ids h = (Ret ids, h') ->
    forall id, In id ids -> In id matching_ids \/ In id (map photo_id photos).
Proof.
  intros photos matching_ids h ids h' Hrun id Hin.
  destruct (filter_loop_decisions flickr camera_model photos matching_ids h)
    as [[decisions [h1 [Hret _]]] | [e [h1 [_ Hraise]]]]; [|congruence].
  rewrite Hret in Hrun. injection Hrun as <- _.
  apply in_app_or in Hin as [H | H]; [now left | right].
  eapply kept_ids_subset, H.
Qed.

Lemma main_match_ids_from_search (fuel : nat) (flickr : FlickrAPI) (a : args)
    (ids : list string) (h : trace) :
  main_match fuel flickr a [] = (Ret ids, h) ->
  forall id, In id ids -> search_returns flickr a id.
Proof.
  unfold main_match.
  destruct (negb (Str.truthy (api_key a)) || negb (Str.truthy (api_secret a))).
  - intros H. apply bind_ret_inv in H as [u [h1 [_ H]]]. discriminate H.
  - intros H id Hin.
    apply bind_ret_inv in H as [u1 [h1 [_ H]]].
    apply bind_ret_inv in H as [u2 [h2 [_ H]]].
    apply bind_ret_inv in H as [photos [h3 [Hsearch H]]].
    apply bind_ret_inv in H as [u4 [h4 [_ Hfilter]]].
    destruct (filter_loop_ids_subset _ _ _ _ _ _ _ Hfilter id Hin) as [[] | Hphotos].
    apply in_map_iff in Hphotos as [p [<- Hp]].
    destruct (search_loop_from_responses _ _ _ _ _ _ _ _ _ _ Hsearch p Hp)
      as [[] | [h5 [q [r [Hr Hpr]]]]].
    exists h5, q, r. split; [exact Hr | now apply in_map].
Qed.

Lemma about_member (ids : list string) (id : string) :
  In id ids -> existsb (String.eqb id) ids = true.
Proof.
  intros H. apply existsb_exists. exists id. split; [exact H|].
  apply String.eqb_refl.
Qed.

Lemma about_add_photos (flickr : FlickrAPI) (photoset : string)
    (ids : list string) :
  forall photo_ids,
    incl photo_ids ids ->
    emits (about ids) (add_photos_to_photoset flickr photoset photo_ids).
Proof.
  induction photo_ids as [|pid photo_ids IH]; intros Hincl; simpl; [emits_step|].
  apply emits_bind.
  - apply emits_call. cbn [about]. apply about_member, Hincl. now left.
  - intros _. emits_step; [unfold sleep; emits_step|].
    apply IH. intros x Hx. apply Hincl. now right.
Qed.

Lemma about_main_assemble (flickr : FlickrAPI) (a : args) (ids : list string) :
  emits (about ids) (main_assemble flickr a ids).
Proof.
  unfold main_assemble, print, create_photoset.
  destruct ids as [|primary rest]; [emits_step|].
  emits_step; [emits_step|].
  destruct (Str.truthy (Str.get_str (photoset_id a))).
  - emits_step; [emits_step|].
    emits_step; [apply about_add_photos, incl_refl | emits_step].
  - emits_step; [emits_step|]. apply emits_bind.
    + apply emits_call. cbn [about]. apply about_member. now left.
    + intros photoset. emits_step; [emits_step|]. emits_step; [|emits_step].
      destruct rest as [|r rest]; [emits_step|].
      apply about_add_photos. intros x Hx. now right.
Qed.

Lemma about_calls (ids : list string) (d : trace) :
  forallb (about ids) d = true ->
  (forall title primary description,
      In (title, primary, description) (create_calls d) -> In primary ids)
  /\ (forall photoset photo, In (photoset, photo) (add_calls d) -> In photo ids).
Proof.
  induction d as [|ev d IH]; [now split|].
  cbn [forallb]. intros H. apply andb_true_iff in H as [Hev Hd].
  destruct (IH Hd) as [Hc Ha].
  assert (Hmem : forall x, existsb (String.eqb x) ids = true -> In x ids).
  { intros x Hx. apply existsb_exists in Hx as [y [Hy Hxy]].
    apply String.eqb_eq in Hxy. now subst. }
  destruct ev; cbn [create_calls add_calls about] in *; split;
    try exact Hc; try exact Ha.
  - intros t p0 dsc [[= _ <- _] | Hin]; [now apply Hmem | eauto].
  - intros s p0 [[= _ <-] | Hin]; [now apply Hmem | eauto].
Qed.

(** X23: whatever the service answers, every photo that a run of [main]
    passes to a create-album call (as primary photo) or to an add-item
    call was returned by a search response for the user given on the
    command line: the script never puts a foreign identifier into an
    album. *)
Theorem album_photos_come_from_search (fuel : nat) (flickr : FlickrAPI)
    (a : args) :
  (forall title primary description,
      In (title, primary, description) (create_calls (snd (main fuel flickr a []))) ->
      search_returns flickr a primary)
  /\ (forall photoset photo,
         In (photoset, photo) (add_calls (snd (main fuel flickr a []))) ->
         search_returns flickr a photo).
Proof.
  unfold main, bind.
  destruct (main_match fuel flickr a []) as [[ids|e|] h] eqn:Hmatch;
    destruct (main_match_no_album_call _ _ _ _ _ Hmatch) as [Hc Ha];
    cbn [snd]; try (rewrite Hc, Ha; split; intros; contradiction).
  destruct (about_main_assemble flickr a ids h) as [d [Hd Hall]].
  rewrite Hd, create_calls_app, add_calls_app, Hc, Ha. cbn [app].
  destruct (about_calls ids d Hall) as [Hcreate Hadd].
  split.
  - intros title primary description Hin.
    eapply main_match_ids_from_search; [exact Hmatch | eauto].
  - intros photoset photo Hin.
    eapply main_match_ids_from_search; [exact Hmatch | eauto].
Qed.

(** ** Album assembly, with each call judged when it is made *)






(** C4, as amended: in create mode (no album identifier given), after
    the matcher has returned the non-empty list [primary :: rest], when
    the create-album call and each add-item call succeed at the moment
    they are made, the run issues exactly one create-album call, with
    [primary] as primary photo, and after it one add-item call per element
    of [rest], in order, on the new album; [primary] is passed to an
    add-item call only if it occurs again in [rest]. *)
Theorem create_mode_primary_then_rest (fuel : nat) (flickr : FlickrAPI)
    (a : args) (photoset primary : string) (rest : list string) (h : trace) :
  photoset_id a = None \/ photoset_id a = Some "" ->
  main_match fuel flickr a [] = (Ret (primary :: rest), h) ->
  photosets_create flickr
    (h ++ [EvPrint (MsgFound (S (List.length rest)) (camera_model a));
           EvPrint (MsgCreating (album_title a))])
    (album_title a) primary (album_desc a)
  = Reply photoset ->
  (forall before pid after,
      rest = before ++ pid :: after ->
      photosets_addPhoto flickr
        (((h ++ [EvPrint (MsgFound (S (List.length rest)) (camera_model a));
                 EvPrint (MsgCreating (album_title a))])
            ++ [EvCreate (album_title a) primary (album_desc a);
                EvPrint (MsgCreated photoset)])
           ++ add_trace photoset before)
        photoset pid
      = Reply tt) ->
  exists before_create after_create,
    main fuel flickr a []
    = (Ret tt,
       before_create
         ++ EvCreate (album_title a) primary (album_desc a) :: after_create)
    /\ create_calls before_create = []
    /\ add_calls before_create = []
    /\ create_calls after_create = []
    /\ add_calls after_create = map (pair photoset) rest
    /\ (In primary (map snd (add_calls after_create)) <-> In primary rest).
Proof.
  intros Hset Hmatch Hcreate Hadd.
  destruct (main_match_no_album_call _ _ _ _ _ Hmatch) as [Hc Ha].
  rewrite (main_after_match _ _ _ _ _ Hmatch).
  rewrite (main_assemble_create_call _ _ _ _ _ Hset). cbv zeta.
  rewrite Hcreate.
  assert (Hrest : forall h0,
             (forall before pid after,
                 rest = before ++ pid :: after ->
                 photosets_addPhoto flickr (h0 ++ add_trace photoset before)
                   photoset pid = Reply tt) ->
             match rest with
             | [] => ret tt
             | _ :: _ => add_photos_to_photoset flickr photoset rest
             end h0
             = (Ret tt, h0 ++ add_trace photoset rest)).
  { intros h0 H0. rewrite <- (add_photos_along flickr photoset rest h0 H0).
    now destruct rest. }
  unfold bind. rewrite (Hrest _ Hadd). unfold print, emit.
  exists (h ++ [EvPrint (MsgFound (S (List.length rest)) (camera_model a));
                EvPrint (MsgCreating (album_title a))]),
         (EvPrint (MsgCreated photoset)
            :: add_trace photoset rest ++ [EvPrint MsgAllAdded]).
  destruct (add_trace_facts photoset rest) as [Hadds [Hcreates _]].
  split; [now rewrite <- !app_assoc|].
  rewrite !create_calls_app, !add_calls_app, Hc, Ha.
  cbn [create_calls add_calls app].
  rewrite !create_calls_app, !add_calls_app, Hadds, Hcreates.
  cbn [create_calls add_calls]. rewrite !app_nil_r, map_map, map_id.
  now repeat split.
Qed.

(** Three tagged photos "A", "B", "C" and no album identifier, on a
    service whose album refuses a photo it holds. *)
Lemma create_mode_primary_then_rest_witness :
  exists before_create after_create,
    main 1
      (Services.strict_album [Examples.tagged "A" "exif:model=canon";
                              Examples.tagged "B" "exif:model=canon";
                              Examples.tagged "C" "exif:model=canon"])
      (Examples.cli "key" "secret" "Canon" None) []
    = (Ret tt, before_create ++ EvCreate "Camera photos" "A" "" :: after_create)
    /\ create_calls before_create = []
    /\ add_calls before_create = []
    /\ create_calls after_create = []
    /\ add_calls after_create
       = [("72157600000000000", "B"); ("72157600000000000", "C")]
    /\ (In "A" (map snd (add_calls after_create)) <-> In "A" ["B"; "C"]).
Proof.
  eapply (create_mode_primary_then_rest 1
            (Services.strict_album [Examples.tagged "A" "exif:model=canon";
                                    Examples.tagged "B" "exif:model=canon";
                                    Examples.tagged "C" "exif:model=canon"])
            (Examples.cli "key" "secret" "Canon" None)
            "72157600000000000" "A" ["B"; "C"]).
  - left. reflexivity.
  - reflexivity.
  - reflexivity.
  - intros [|b1 [|b2 before]] pid after E; simpl in E.
    + injection E as <- _. reflexivity.
    + injection E as <- <- _. reflexivity.
    + destruct before; discriminate E.
Defined.
